(** * Request-admission gate of the Fastify MCP server boilerplate

    A shallow embedding of [src/security.ts] (rate limiter, input, path and
    URL validators, audit log), [src/config.ts] ([createConfig]) and
    [src/middleware.ts] (the onRequest hooks and their registration),
    together with the properties the specification states about them.

    Conventions of the embedding.
    - A JavaScript string is a [string]: one [ascii] per UTF-16 code unit,
      so the strings covered are those whose code units are below 256.
    - [Date.now()] is an explicit argument [now : Z] (milliseconds); counters
      and limits are integers in [Z].
    - Module-level mutable objects ([rateLimitMap], [securityLog], the
      [lastIndex] of each global regular expression) are threaded as
      explicit state.
    - A function that throws returns [inl message]. *)

From Stdlib Require Import ZArith Lia Ascii.
From Stdlib Require String.
From stdpp Require Import base option list strings pretty gmap.

Local Open Scope Z_scope.

(** Outcome of a function that may throw [new Error(message)]. *)
Definition result (A : Type) : Type := (string + A)%type.
Definition Throw {A : Type} (message : string) : result A := inl message.
Definition Return {A : Type} (a : A) : result A := inr a.

Definition throws {A : Type} (r : result A) : Prop := ∃ message, r = Throw message.

(** ** RateLimiter ([checkRateLimit], [cleanupRateLimit]) *)

Module RateLimiter.

(** The value type of [rateLimitMap]. *)
Record RateLimitEntry : Type := mkEntry { count : Z; resetTime : Z }.

#[global] Instance RateLimitEntry_eq_dec : EqDecision RateLimitEntry.
Proof. solve_decision. Defined.

(** [const rateLimitMap = new Map<string, { count; resetTime }>()]. *)
Definition rateLimitMap_init : gmap string RateLimitEntry := ∅.

(** [checkRateLimit(identifier, maxRequests, windowMs)] at clock value [now].
    The first branch is [!current || now > current.resetTime];
    [current.count++] mutates the object stored in the map, which is an
    update of the map at [identifier]. *)
Definition checkRateLimit (now : Z) (identifier : string)
    (maxRequests windowMs : Z) (m : gmap string RateLimitEntry)
  : bool * gmap string RateLimitEntry :=
  match m !! identifier with
  | None => (true, <[identifier := mkEntry 1 (now + windowMs)]> m)
  | Some current =>
      if resetTime current <? now then
        (true, <[identifier := mkEntry 1 (now + windowMs)]> m)
      else if maxRequests <=? count current then (false, m)
      else
        (true,
         <[identifier := mkEntry (count current + 1) (resetTime current)]> m)
  end.

(** [cleanupRateLimit()]: delete every entry with [now > value.resetTime]. *)
Definition cleanupRateLimit (now : Z) (m : gmap string RateLimitEntry)
  : gmap string RateLimitEntry :=
  filter (λ kv, ¬ (resetTime kv.2 < now)) m.

(** Successive calls for one identifier, at the given clock values. *)
Fixpoint calls (identifier : string) (maxRequests windowMs : Z)
    (times : list Z) (m : gmap string RateLimitEntry)
  : list bool * gmap string RateLimitEntry :=
  match times with
  | [] => ([], m)
  | now :: rest =>
      let '(b, m1) := checkRateLimit now identifier maxRequests windowMs m in
      let '(bs, m2) := calls identifier maxRequests windowMs rest m1 in
      (b :: bs, m2)
  end.

(** No live entry for [identifier] at time [now]: none at all, or one whose
    window is over. *)
Definition no_live_entry (m : gmap string RateLimitEntry)
    (identifier : string) (now : Z) : Prop :=
  match m !! identifier with
  | None => True
  | Some c => resetTime c < now
  end.

(** The window property of the specification, for a limit [N], a first call
    at [t0] and [N] further calls at [ts], all inside the window opened by
    the first: the first [N] calls are admitted, call [N+1] is denied, and a
    call at any [t'] after the reset time is admitted and opens a window
    with count 1. *)
Definition window_property (identifier : string) (N windowMs : Z)
    (m : gmap string RateLimitEntry) (t0 : Z) (ts : list Z) : Prop :=
  let '(bs, m') := calls identifier N windowMs (t0 :: ts) m in
  bs = replicate (Z.to_nat N) true ++ [false] ∧
  ∀ t', t0 + windowMs < t' →
    checkRateLimit t' identifier N windowMs m'
    = (true, <[identifier := mkEntry 1 (t' + windowMs)]> m').

End RateLimiter.

(** ** Strings and regular expressions of the host language *)

Module JsString.

(** Code unit of a character. *)
Definition code (c : ascii) : nat := nat_of_ascii c.

Definition inRange (lo hi c : ascii) : bool :=
  (code lo <=? code c)%nat && (code c <=? code hi)%nat.

(** [\w]: [A-Za-z0-9_]. *)
Definition isWordChar (c : ascii) : bool :=
  inRange "a" "z" c || inRange "A" "Z" c || inRange "0" "9" c
  || Ascii.eqb c "_".

(** [\s], and the characters [trim()] strips: TAB, LF, VT, FF, CR, SP and
    NBSP are the ones below 256. *)
Definition isWhiteSpace (c : ascii) : bool :=
  ((9 <=? code c) && (code c <=? 13) || (code c =? 32) || (code c =? 160))%nat.

(** Case folding of a regular expression with the [i] flag and without the
    [u] flag, as far as the comparison with an ASCII letter of the pattern
    goes: ASCII lower-case letters go to upper case, and no other code unit
    folds to an ASCII letter. *)
Definition canonicalize (c : ascii) : ascii :=
  if inRange "a" "z" c then ascii_of_nat (code c - 32) else c.

(** [s.startsWith(p)]. *)
Fixpoint startsWith (s p : string) {struct p} : bool :=
  match p, s with
  | EmptyString, _ => true
  | String a p', String b s' => Ascii.eqb a b && startsWith s' p'
  | String _ _, EmptyString => false
  end.

(** [s.includes(needle)]. *)
Fixpoint includes (s needle : string) : bool :=
  startsWith s needle ||
  match s with
  | EmptyString => false
  | String _ s' => includes s' needle
  end.

(** [s.slice(n)] for [0 ≤ n]. *)
Fixpoint slice (n : nat) (s : string) : string :=
  match n, s with
  | O, _ => s
  | S n', String _ s' => slice n' s'
  | S _, EmptyString => EmptyString
  end.

(** [s.replace(":", "")]: the first occurrence of the character goes. *)
Fixpoint removeFirst (c : ascii) (s : string) : string :=
  match s with
  | EmptyString => EmptyString
  | String a s' => if Ascii.eqb a c then s' else String a (removeFirst c s')
  end.

(** [s.replace(/[^...]/g, "")] for a negated class: keep the members. *)
Fixpoint keep (member : ascii → bool) (s : string) : string :=
  match s with
  | EmptyString => EmptyString
  | String a s' => if member a then String a (keep member s') else keep member s'
  end.

Fixpoint trimStart (s : string) : string :=
  match s with
  | EmptyString => EmptyString
  | String a s' => if isWhiteSpace a then trimStart s' else s
  end.

(** White space at the end goes: a white-space character is dropped when
    everything after it is dropped too. *)
Fixpoint trimEnd (s : string) : string :=
  match s with
  | EmptyString => EmptyString
  | String a s' =>
      match trimEnd s' with
      | EmptyString => if isWhiteSpace a then EmptyString else String a EmptyString
      | t => String a t
      end
  end.

(** [s.split(",")]. *)
Fixpoint splitComma (s : string) : list string :=
  match s with
  | EmptyString => [EmptyString]
  | String a s' =>
      if Ascii.eqb a "," then EmptyString :: splitComma s'
      else
        match splitComma s' with
        | head :: rest => String a head :: rest
        | [] => [String a EmptyString]
        end
  end.

(** [s.trim()]. *)
Definition trim (s : string) : string := trimEnd (trimStart s).

(** [s.normalize()], Unicode normalisation form C. No code unit below 256
    is a combining mark or is changed by canonical composition, so on the
    strings of this embedding the normal form is the string itself. *)
Definition normalize (s : string) : string := s.

(** Every character of [s] satisfies [member]. *)
Fixpoint allChars (member : ascii → bool) (s : string) : bool :=
  match s with
  | EmptyString => true
  | String a s' => member a && allChars member s'
  end.

(** [needle] occurs in [s]. *)
Definition contains (s needle : string) : Prop :=
  ∃ before after, s = before +:+ needle +:+ after.

End JsString.

Module Regex.
Import JsString.

(** Items of a character class. *)
Inductive classItem : Type :=
| One (c : ascii)                    (* a single character *)
| Range (lo hi : ascii)              (* lo-hi              *)
| WordChars                          (* \w                 *)
| WhiteSpace.                        (* \s                 *)

Definition itemMember (c : ascii) (item : classItem) : bool :=
  match item with
  | One a => Ascii.eqb c a
  | Range lo hi => inRange lo hi c
  | WordChars => isWordChar c
  | WhiteSpace => isWhiteSpace c
  end.

Definition classMember (items : list classItem) (c : ascii) : bool :=
  existsb (itemMember c) items.

(** The items of a class that lists single characters. *)
Fixpoint ones (members : string) : list classItem :=
  match members with
  | EmptyString => []
  | String a rest => One a :: ones rest
  end.

(** The pattern syntax the repository's regular expressions use. *)
Inductive regex : Type :=
| Class (items : list classItem)     (* [...]            *)
| ClassPlus (items : list classItem) (* [...]+ , greedy  *)
| Chars (literal : string)           (* abc              *)
| Alt (r1 r2 : regex)                (* r1|r2            *)
| Seq (r1 r2 : regex)                (* r1 r2            *)
| WordBoundary                       (* \b               *)
| Start                              (* ^ , no m flag    *)
| End_.                              (* $ , no m flag    *)

(** [Chars] under the flags: code units compared one by one, folded when
    [ignoreCase] is set. *)
Fixpoint literalAt (ignoreCase : bool) (literal s : string) {struct literal}
  : bool :=
  match literal, s with
  | EmptyString, _ => true
  | String a l', String b s' =>
      (if ignoreCase then Ascii.eqb (canonicalize a) (canonicalize b)
       else Ascii.eqb a b)
      && literalAt ignoreCase l' s'
  | String _ _, EmptyString => false
  end.

(** Length of the longest run of class members at the head of [s]. *)
Fixpoint run (member : ascii → bool) (s : string) : nat :=
  match s with
  | String a s' => if member a then S (run member s') else O
  | EmptyString => O
  end.

Definition wordAt (s : string) (i : nat) : bool :=
  match String.get i s with
  | Some c => isWordChar c
  | None => false
  end.

(** [\b] at position [i]: exactly one of the neighbours is a word
    character. *)
Definition boundaryAt (s : string) (i : nat) : bool :=
  xorb (match i with O => false | S j => wordAt s j end) (wordAt s i).

(** Backtracking matcher: the end positions of the matches of [r] that
    start at position [i] of [input], in the order the engine tries them. *)
Fixpoint matchFrom (ignoreCase : bool) (r : regex) (input : string) (i : nat)
  : list nat :=
  match r with
  | Class items =>
      match String.get i input with
      | Some c => if classMember items c then [S i] else []
      | None => []
      end
  | ClassPlus items =>
      (λ k, (i + k)%nat)
        <$> reverse (seq 1 (run (classMember items) (slice i input)))
  | Chars literal =>
      if ((i <=? String.length input)%nat
          && literalAt ignoreCase literal (slice i input))%bool
      then [(i + String.length literal)%nat] else []
  | Alt r1 r2 =>
      matchFrom ignoreCase r1 input i ++ matchFrom ignoreCase r2 input i
  | Seq r1 r2 =>
      matchFrom ignoreCase r1 input i ≫= matchFrom ignoreCase r2 input
  | WordBoundary => if boundaryAt input i then [i] else []
  | Start => if (i =? 0)%nat then [i] else []
  | End_ => if (i =? String.length input)%nat then [i] else []
  end.

(** A [RegExp] object: pattern, flags, and the mutable [lastIndex]. *)
Record RegExp : Type := mkRegExp {
  source : regex;
  global : bool;
  ignoreCase : bool;
  lastIndex : nat
}.

(** First match that starts at [i], [i+1], ..., [i + fuel]: its end. *)
Fixpoint search (fuel : nat) (ic : bool) (r : regex) (input : string) (i : nat)
  : option nat :=
  match matchFrom ic r input i with
  | e :: _ => Some e
  | [] =>
      match fuel with
      | O => None
      | S fuel' => search fuel' ic r input (S i)
      end
  end.

(** [RegExpBuiltinExec]: the search starts at [lastIndex] for a global
    expression and at 0 otherwise, and fails at once when [lastIndex] is
    past the end of the input. *)
Definition exec (re : RegExp) (input : string) : option nat :=
  let start := if global re then lastIndex re else O in
  if (String.length input <? start)%nat then None
  else search (String.length input - start) (ignoreCase re) (source re) input start.

Definition setLastIndex (re : RegExp) (i : nat) : RegExp :=
  mkRegExp (source re) (global re) (ignoreCase re) i.

(** [re.test(input)]: a global expression remembers the end of the match
    in [lastIndex] and resets it to 0 on failure. *)
Definition test (re : RegExp) (input : string) : bool * RegExp :=
  match exec re input with
  | Some e => (true, if global re then setLastIndex re e else re)
  | None => (false, if global re then setLastIndex re O else re)
  end.

(** [input] has a match of [re]'s pattern somewhere. *)
Definition matchesSomewhere (re : RegExp) (input : string) : Prop :=
  ∃ i, (i ≤ String.length input)%nat ∧
       matchFrom (ignoreCase re) (source re) input i ≠ [].

End Regex.

(** ** InputValidator ([sanitizeInput], [validateFilePath], [validateUrl]) *)

Module InputValidator.
Import JsString Regex.

Definition global_re (r : regex) (ignoreCase : bool) : RegExp :=
  mkRegExp r true ignoreCase 0.

Definition word (r : regex) : regex := Seq WordBoundary (Seq r WordBoundary).

(** [const DANGEROUS_PATTERNS = [...]]: five expressions, all with the [g]
    flag, created once when the module is loaded ([lastIndex] 0). *)
Definition DANGEROUS_PATTERNS : list RegExp :=
  [ (* /[;&|`$(){}[\]\\]/g *)
    global_re (Class (ones ";&|`$(){}[]\")) false;
    (* /\b(eval|exec|system|spawn|fork)\b/gi *)
    global_re
      (word (Alt (Chars "eval") (Alt (Chars "exec") (Alt (Chars "system")
             (Alt (Chars "spawn") (Chars "fork")))))) true;
    (* /\b(rm|del|format|shutdown|reboot)\b/gi *)
    global_re
      (word (Alt (Chars "rm") (Alt (Chars "del") (Alt (Chars "format")
             (Alt (Chars "shutdown") (Chars "reboot")))))) true;
    (* /(\.\.\/|\.\.\\)/g *)
    global_re (Alt (Chars "../") (Chars "..\")) false;
    (* /[<>]/g *)
    global_re (Class (ones "<>")) false ].

(** [[a-zA-Z0-9._/-]]. *)
Definition safePathClass : list classItem :=
  Range "a" "z" :: Range "A" "Z" :: Range "0" "9" :: ones "._/-".

Definition safePathChar : ascii → bool := classMember safePathClass.

(** [const SAFE_PATH_PATTERN = /^[a-zA-Z0-9._/-]+$/]. *)
Definition SAFE_PATH_PATTERN : RegExp :=
  mkRegExp (Seq Start (Seq (ClassPlus safePathClass) End_)) false false 0.

(** [[\w\s.-]], the characters the final pass of [sanitizeInput] keeps. *)
Definition keptChar : ascii → bool :=
  classMember (WordChars :: WhiteSpace :: ones ".-").

(** [for (const pattern of patterns) if (pattern.test(input)) throw ...]:
    the expressions are tested in order up to the first match; each test
    updates the [lastIndex] of its expression. *)
Fixpoint anyTest (patterns : list RegExp) (input : string)
  : bool * list RegExp :=
  match patterns with
  | [] => (false, [])
  | pattern :: rest =>
      let '(matched, pattern') := test pattern input in
      if matched then (true, pattern' :: rest)
      else
        let '(matched', rest') := anyTest rest input in
        (matched', pattern' :: rest')
  end.

(** [sanitizeInput(input, maxLength)], with the array of pattern objects
    as explicit state. The parameter is typed [string], so the [typeof]
    guard never fires. *)
Definition sanitizeInput (input : string) (maxLength : Z)
    (patterns : list RegExp) : result string * list RegExp :=
  if maxLength <? Z.of_nat (String.length input) then
    (Throw ("Input too long. Maximum length: " +:+ pretty maxLength), patterns)
  else
    let '(dangerous, patterns') := anyTest patterns input in
    if dangerous then
      (Throw "Input contains potentially dangerous characters or commands",
       patterns')
    else (Return (trim (keep keptChar input)), patterns').

(** [validateFilePath(path)]. *)
Definition validateFilePath (path : string) : result string :=
  if String.eqb path "" then Throw "Invalid file path"
  else
    let normalizedPath := normalize path in
    if includes normalizedPath ".." || includes normalizedPath "~" then
      Throw "Path traversal detected"
    else if negb (test SAFE_PATH_PATTERN normalizedPath).1 then
      Throw "Invalid characters in file path"
    else Return normalizedPath.

(** The fields of a parsed [URL] object that the repository reads. *)
Record URL : Type := mkURL {
  protocol : string;
  hostname : string
}.

(** [allowedSchemes.includes(x)]. *)
Definition arrayIncludes (xs : list string) (x : string) : bool :=
  bool_decide (x ∈ xs).

(** The private-network test of [validateUrl], on the host name as text. *)
Definition privateHost (host : string) : bool :=
  String.eqb host "localhost" || String.eqb host "127.0.0.1"
  || startsWith host "192.168." || startsWith host "10."
  || startsWith host "172.".

Section ValidateUrl.
(** [new URL(url)] of the platform: the parsed object, or a thrown
    [TypeError] with its message. *)
Variable URL_new : string → result URL.

(** The [try] block of [validateUrl]. *)
Definition validateUrl_try (url : string) (allowedSchemes : list string)
  : result URL :=
  match URL_new url with
  | inl message => Throw message
  | inr parsed =>
      if negb (arrayIncludes allowedSchemes
                 (removeFirst ":" (protocol parsed))) then
        Throw ("URL scheme not allowed: " +:+ protocol parsed)
      else if privateHost (hostname parsed) then
        Throw "Access to private/internal URLs not allowed"
      else Return parsed
  end.

(** [validateUrl(url, allowedSchemes)]: every error of the [try] block is
    caught and thrown again behind the prefix [Invalid URL: ]. *)
Definition validateUrl (url : string) (allowedSchemes : list string)
  : result URL :=
  match validateUrl_try url allowedSchemes with
  | inl message => Throw ("Invalid URL: " +:+ message)
  | inr parsed => Return parsed
  end.
End ValidateUrl.

(** [allowedSchemes = ["http", "https"]], the default. *)
Definition defaultSchemes : list string := ["http"; "https"].

(** The platform's URL parser on addresses of the shape
    [scheme://host] or [scheme://host/path] whose scheme and host are
    lower-case and carry no port, user info, query or fragment; any other
    input is refused here. *)
Fixpoint splitAt (sep : string) (s : string) : option (string * string) :=
  if startsWith s sep then Some (EmptyString, slice (String.length sep) s)
  else
    match s with
    | EmptyString => None
    | String a s' =>
        match splitAt sep s' with
        | Some (l, r) => Some (String a l, r)
        | None => None
        end
    end.

Definition simpleChar : ascii → bool :=
  classMember (Range "a" "z" :: Range "0" "9" :: ones ".-").

Definition URL_simple (url : string) : result URL :=
  match splitAt "://" url with
  | Some (scheme, rest) =>
      let host := match splitAt "/" rest with
                  | Some (h, _) => h
                  | None => rest
                  end in
      if allChars (inRange "a" "z") scheme && negb (String.eqb scheme "")
         && allChars simpleChar host && negb (String.eqb host "")
         && allChars safePathChar rest
      then Return (mkURL (scheme +:+ ":") host)
      else Throw "Invalid URL"
  | None => Throw "Invalid URL"
  end.

End InputValidator.

(** ** AuditLog ([logSecurityEvent], [getSecurityLog]) *)

Module AuditLog.

Inductive Severity : Type := low | medium | high | critical.

#[global] Instance Severity_eq_dec : EqDecision Severity.
Proof. solve_decision. Defined.

(** [interface SecurityEvent]; [details] is a record of named values, a
    value being a string or [undefined]. *)
Record SecurityEvent : Type := mkEvent {
  timestamp : string;
  event : string;
  identifier : string;
  details : list (string * option string);
  severity : Severity
}.

#[global] Instance SecurityEvent_eq_dec : EqDecision SecurityEvent.
Proof. solve_decision. Defined.

(** [Omit<SecurityEvent, "timestamp">], the argument of
    [logSecurityEvent]. *)
Record EventInput : Type := mkInput {
  in_event : string;
  in_identifier : string;
  in_details : list (string * option string);
  in_severity : Severity
}.

(** [{ ...event, timestamp: new Date().toISOString() }], the clock text
    being an explicit argument. *)
Definition stamp (e : EventInput) (isoNow : string) : SecurityEvent :=
  mkEvent isoNow (in_event e) (in_identifier e) (in_details e) (in_severity e).

(** The part of the JavaScript heap the audit log lives in: event objects,
    and arrays whose elements are references to event objects. *)
Record Store : Type := mkStore {
  objects : gmap nat SecurityEvent;
  arrays : gmap nat (list nat)
}.

(** [const securityLog: SecurityEvent[] = []]: the binding names one array
    for the life of the module. *)
Definition securityLog : nat := 0%nat.

Definition store_init : Store := mkStore ∅ {[securityLog := []]}.

Definition elements (st : Store) (a : nat) : list nat :=
  default [] (arrays st !! a).

(** The events an array holds, in index order. *)
Definition readArray (st : Store) (a : nat) : list SecurityEvent :=
  omap (λ o, objects st !! o) (elements st a).

(** [logSecurityEvent(event)]: [push] of a new object, then one [shift]
    when the length has passed 1000. *)
Definition logSecurityEvent (e : EventInput) (isoNow : string) (st : Store)
  : Store :=
  let o := fresh (dom (objects st)) in
  let pushed := elements st securityLog ++ [o] in
  let kept := if (1000 <? length pushed)%nat then tail pushed else pushed in
  mkStore (<[o := stamp e isoNow]> (objects st))
          (<[securityLog := kept]> (arrays st)).

(** [getSecurityLog()]: [[...securityLog]] allocates a new array with the
    same element references. *)
Definition getSecurityLog (st : Store) : nat * Store :=
  let a := fresh (dom (arrays st)) in
  (a, mkStore (objects st) (<[a := elements st securityLog]> (arrays st))).

(** Any mutation of the array [a] itself (assignment to an index, [push],
    [pop], [splice], [length = ...]): its elements become [l]. *)
Definition writeArray (a : nat) (l : list nat) (st : Store) : Store :=
  mkStore (objects st) (<[a := l]> (arrays st)).

(** A sequence of appends, oldest first, each with its clock text. *)
Fixpoint logAll (es : list (EventInput * string)) (st : Store) : Store :=
  match es with
  | [] => st
  | (e, iso) :: rest => logAll rest (logSecurityEvent e iso st)
  end.

(** The last [n] elements of a list. *)
Definition lastN {A : Type} (n : nat) (l : list A) : list A :=
  drop (length l - n) l.

(** The events of a sequence of appends, oldest first. *)
Definition stamped (es : list (EventInput * string)) : list SecurityEvent :=
  (λ p, stamp p.1 p.2) <$> es.

(** Every element of the log array is a live event object. *)
Definition wf (st : Store) : Prop :=
  is_Some (arrays st !! securityLog) ∧
  ∀ o, o ∈ elements st securityLog → is_Some (objects st !! o).

End AuditLog.

(** ** Startup configuration ([createConfig]) *)

Module ConfigLoader.
Import JsString.

(** [interface Config]; numbers are integers here. *)
Record Config : Type := mkConfig {
  port : Z;
  host : string;
  nodeEnv : string;
  logLevel : string;
  mcpEndpoint : string;
  healthEndpoint : string;
  version : string;
  name : string;
  enableAuth : bool;
  apiKey : option string;
  enableRateLimit : bool;
  maxRequestsPerMinute : Z;
  enableRequestLogging : bool;
  trustedOrigins : list string
}.

(** [xs.join(", ")]. *)
Fixpoint joinComma (xs : list string) : string :=
  match xs with
  | [] => EmptyString
  | [x] => x
  | x :: rest => x +:+ ", " +:+ joinComma rest
  end.

Definition nonEmpty (s : string) : bool := negb (String.eqb s "").

Definition validLogLevels : list string :=
  ["trace"; "debug"; "info"; "warn"; "error"; "fatal"].

Section CreateConfig.
(** [Number(value)] of the platform on the text of an environment
    variable: the number, or [None] for [NaN]. *)
Variable Number : string → option Z.
(** [process.env]. *)
Variable env : gmap string string.
(** [packageJson.version], [packageJson.name]. *)
Variables (packageVersion packageName : string).

(** [getEnvVar(key, defaultValue)] with a default: it cannot throw. *)
Definition getEnvVar (key defaultValue : string) : string :=
  default defaultValue (env !! key).

(** [getEnvNumber(key, defaultValue)]. *)
Definition getEnvNumber (key : string) (defaultValue : Z) : result Z :=
  match env !! key with
  | None => Return defaultValue
  | Some value =>
      match Number value with
      | None =>
          Throw ("Environment variable " +:+ key
                 +:+ " must be a number, got: " +:+ value)
      | Some parsed => Return parsed
      end
  end.

(** [createConfig()]. The fields of the object literal are evaluated in
    source order, so of the two numeric variables [PORT] is read first. *)
Definition createConfig : result Config :=
  let nodeEnv := getEnvVar "NODE_ENV" "development" in
  if negb (bool_decide (nodeEnv ∈ ["development"; "production"; "test"])) then
    Throw ("Invalid NODE_ENV: " +:+ nodeEnv
           +:+ ". Must be development, production, or test")
  else
    match getEnvNumber "PORT" 8080 with
    | inl message => Throw message
    | inr port =>
        match getEnvNumber "MAX_REQUESTS_PER_MINUTE" 100 with
        | inl message => Throw message
        | inr maxRequests =>
            let config :=
              mkConfig
                port
                (getEnvVar "HOST" "localhost")
                nodeEnv
                (getEnvVar "LOG_LEVEL"
                   (if String.eqb nodeEnv "production" then "info" else "debug"))
                (getEnvVar "MCP_ENDPOINT" "/mcp")
                (getEnvVar "HEALTH_ENDPOINT" "/health")
                packageVersion
                packageName
                (String.eqb (getEnvVar "ENABLE_AUTH" "false") "true")
                (env !! "API_KEY")
                (String.eqb (getEnvVar "ENABLE_RATE_LIMIT" "true") "true")
                maxRequests
                (String.eqb (getEnvVar "ENABLE_REQUEST_LOGGING" "true") "true")
                (filter (λ s, nonEmpty s = true)
                   (splitComma (getEnvVar "TRUSTED_ORIGINS" "")))
            in
            if negb (bool_decide (logLevel config ∈ validLogLevels)) then
              Throw ("Invalid LOG_LEVEL: " +:+ logLevel config
                     +:+ ". Must be one of: " +:+ joinComma validLogLevels)
            else if (port <? 1) || (65535 <? port) then
              Throw ("Invalid PORT: " +:+ pretty port
                     +:+ ". Must be between 1 and 65535")
            else Return config
        end
    end.
End CreateConfig.

(** [Number] on the text of a decimal natural number; other texts are
    taken as [NaN] here. *)
Fixpoint digits (acc : Z) (s : string) : option Z :=
  match s with
  | EmptyString => Some acc
  | String a s' =>
      if inRange "0" "9" a
      then digits (10 * acc + Z.of_nat (code a - 48)) s'
      else None
  end.

Definition Number_decimal (s : string) : option Z :=
  if String.eqb s "" then Some 0 else digits 0 s.

(** An environment that turns authentication on and sets nothing else. *)
Definition authOnlyEnv : gmap string string := {["ENABLE_AUTH" := "true"]}.

End ConfigLoader.

(** ** The onRequest hooks ([src/middleware.ts]) *)

Module Middleware.
Import JsString AuditLog RateLimiter.

(** [interface SecurityConfig]. *)
Record SecurityConfig : Type := mkSecurityConfig {
  enableAuth : bool;
  apiKey : option string;
  enableRateLimit : bool;
  maxRequestsPerMinute : Z;
  enableRequestLogging : bool;
  trustedOrigins : list string
}.

(** The fields of a [FastifyRequest] the hooks read; header names are in
    lower case, as the server delivers them. *)
Record FastifyRequest : Type := mkRequest {
  url : string;
  method : string;
  headers : gmap string string;
  ip : option string;
  id : string
}.

(** Body of a rejection. *)
Record Payload : Type := mkPayload {
  error : string;
  message : string;
  retryAfter : option Z
}.

(** The state of a [FastifyReply]. *)
Record FastifyReply : Type := mkReply {
  statusCode : Z;
  replyHeaders : gmap string string;
  payload : option Payload;
  sent : bool
}.

Definition reply_init : FastifyReply := mkReply 200 ∅ None false.

(** [reply.header(name, value)]. *)
Definition header (name value : string) (r : FastifyReply) : FastifyReply :=
  mkReply (statusCode r) (<[name := value]> (replyHeaders r)) (payload r) (sent r).

(** [reply.status(code)]. *)
Definition status (code : Z) (r : FastifyReply) : FastifyReply :=
  mkReply code (replyHeaders r) (payload r) (sent r).

(** [reply.send(body)]: the response goes out, [reply.sent] becomes true. *)
Definition send (body : Payload) (r : FastifyReply) : FastifyReply :=
  mkReply (statusCode r) (replyHeaders r) (Some body) true.

(** One line of [request.log.info]. *)
Record LogLine : Type := mkLogLine {
  log_method : string;
  log_url : string;
  log_userAgent : option string;
  log_ip : string;
  log_requestId : string;
  log_msg : string
}.

(** What a hook can read and change: the reply of the request in flight,
    the module state of [security.ts], the logger's output, and the clock
    ([Date.now()] and [new Date().toISOString()]). *)
Record World : Type := mkWorld {
  reply : FastifyReply;
  audit : Store;
  rateLimitMap : gmap string RateLimitEntry;
  requestLog : list LogLine;
  nowMs : Z;
  nowISO : string
}.

Definition setReply (r : FastifyReply) (w : World) : World :=
  mkWorld r (audit w) (rateLimitMap w) (requestLog w) (nowMs w) (nowISO w).

(** A call of [logSecurityEvent] from a hook. *)
Definition logEvent (e : EventInput) (w : World) : World :=
  mkWorld (reply w) (logSecurityEvent e (nowISO w) (audit w))
          (rateLimitMap w) (requestLog w) (nowMs w) (nowISO w).

(** [getClientIP(request)]. *)
Definition getClientIP (request : FastifyRequest) : string :=
  match headers request !! "x-forwarded-for" with
  | Some forwarded =>
      match splitComma forwarded with
      | firstIP :: _ => trim firstIP
      | [] => "unknown"
      end
  | None =>
      match headers request !! "x-real-ip" with
      | Some realIp => realIp
      | None => default "unknown" (ip request)
      end
  end.

(** A JavaScript string in a condition: [undefined] and the empty string
    are false. *)
Definition truthy (v : option string) : bool :=
  match v with
  | Some s => negb (String.eqb s "")
  | None => false
  end.

(** [authMiddleware(request, reply, config)]. *)
Definition authMiddleware (config : SecurityConfig)
    (request : FastifyRequest) (w : World) : World :=
  if negb (enableAuth config) || negb (startsWith (url request) "/mcp") then w
  else
    let authHeader := headers request !! "authorization" in
    if negb (truthy authHeader)
       || negb (startsWith (default "" authHeader) "Bearer ") then
      let w1 := logEvent
        (mkInput "authentication_failed" (getClientIP request)
           [("url", Some (url request));
            ("userAgent", headers request !! "user-agent");
            ("reason", Some "missing_or_invalid_header")]
           medium) w in
      setReply
        (send (mkPayload "Unauthorized"
                 "Missing or invalid authorization header" None)
           (status 401 (reply w1))) w1
    else
      let token := slice 7 (default "" authHeader) in
      if negb (bool_decide (Some token = apiKey config)) then
        let w1 := logEvent
          (mkInput "authentication_failed" (getClientIP request)
             [("url", Some (url request));
              ("userAgent", headers request !! "user-agent");
              ("reason", Some "invalid_token")]
             high) w in
        setReply
          (send (mkPayload "Forbidden" "Invalid API key" None)
             (status 403 (reply w1))) w1
      else w.

(** [rateLimitMiddleware(request, reply, config)]. *)
Definition rateLimitMiddleware (config : SecurityConfig)
    (request : FastifyRequest) (w : World) : World :=
  if negb (enableRateLimit config) then w
  else
    let clientIP := getClientIP request in
    let '(allowed, m) :=
      checkRateLimit (nowMs w) clientIP (maxRequestsPerMinute config) 60000
        (rateLimitMap w) in
    let w0 := mkWorld (reply w) (audit w) m (requestLog w) (nowMs w) (nowISO w) in
    if negb allowed then
      let w1 := logEvent
        (mkInput "rate_limit_exceeded" clientIP
           [("url", Some (url request));
            ("userAgent", headers request !! "user-agent")]
           medium) w0 in
      setReply
        (send (mkPayload "Too Many Requests"
                 "Rate limit exceeded. Please try again later." (Some 60))
           (status 429 (reply w1))) w1
    else w0.

(** [corsMiddleware(request, reply, config)]. *)
Definition corsMiddleware (config : SecurityConfig)
    (request : FastifyRequest) (w : World) : World :=
  let origin := headers request !! "origin" in
  if negb (startsWith (url request) "/mcp") then w
  else
    let allowHeaders (w' : World) : World :=
      setReply
        (header "Access-Control-Allow-Headers" "Content-Type, Authorization"
           (header "Access-Control-Allow-Methods" "GET, POST, OPTIONS"
              (header "Access-Control-Allow-Credentials" "true" (reply w'))))
        w' in
    if truthy origin && (0 <? length (trustedOrigins config))%nat then
      if bool_decide (default "" origin ∈ trustedOrigins config) then
        allowHeaders
          (setReply
             (header "Access-Control-Allow-Origin" (default "" origin) (reply w))
             w)
      else
        let w1 := logEvent
          (mkInput "untrusted_origin_blocked" (getClientIP request)
             [("origin", origin); ("url", Some (url request))]
             medium) w in
        setReply
          (send (mkPayload "Forbidden" "Origin not allowed" None)
             (status 403 (reply w1))) w1
    else allowHeaders w.

(** [requestLoggingMiddleware(request, _reply, config)]. *)
Definition requestLoggingMiddleware (config : SecurityConfig)
    (request : FastifyRequest) (w : World) : World :=
  if negb (enableRequestLogging config) then w
  else
    mkWorld (reply w) (audit w) (rateLimitMap w)
      (requestLog w ++
       [mkLogLine (method request) (url request)
          (headers request !! "user-agent") (getClientIP request)
          (id request) "Incoming request"])
      (nowMs w) (nowISO w).

Definition cspValue : string :=
  "default-src 'self'; " +:+ "script-src 'self'; " +:+
  "style-src 'self' 'unsafe-inline'; " +:+ "img-src 'self' data:; " +:+
  "font-src 'self'; " +:+ "connect-src 'self'; " +:+
  "frame-ancestors 'none';".

(** [cspMiddleware(_request, reply)]. *)
Definition cspMiddleware (request : FastifyRequest) (w : World) : World :=
  setReply
    (header "Referrer-Policy" "strict-origin-when-cross-origin"
       (header "X-XSS-Protection" "1; mode=block"
          (header "X-Frame-Options" "DENY"
             (header "X-Content-Type-Options" "nosniff"
                (header "Content-Security-Policy" cspValue (reply w))))))
    w.

(** An onRequest hook, and the part of a [FastifyInstance] that
    [addHook("onRequest", ...)] fills. *)
Definition Hook : Type := FastifyRequest → World → World.

Record FastifyInstance : Type := mkApp { onRequestHooks : list Hook }.

(** [app.addHook("onRequest", hook)]: hooks are kept in registration
    order. *)
Definition addHook (hook : Hook) (app : FastifyInstance) : FastifyInstance :=
  mkApp (onRequestHooks app ++ [hook]).

(** A [setInterval(task, everyMs)] registration. *)
Record Interval : Type := mkInterval {
  everyMs : Z;
  task : World → World
}.

Definition cleanupTask (w : World) : World :=
  mkWorld (reply w) (audit w) (cleanupRateLimit (nowMs w) (rateLimitMap w))
          (requestLog w) (nowMs w) (nowISO w).

(** [registerSecurityMiddleware(app, config)]. *)
Definition registerSecurityMiddleware (app : FastifyInstance)
    (config : SecurityConfig) : FastifyInstance * Interval :=
  let app1 := addHook cspMiddleware app in
  let app2 := addHook (requestLoggingMiddleware config) app1 in
  let app3 := addHook (corsMiddleware config) app2 in
  let app4 := addHook (rateLimitMiddleware config) app3 in
  let app5 := addHook (authMiddleware config) app4 in
  (app5, mkInterval 300000 cleanupTask).

(** The onRequest hook runner of the framework (Fastify 5, [hookRunner] in
    [lib/hooks.js]): the hooks run one after the other in registration
    order, and the runner returns, before a hook and before it hands the
    request to the route handler, as soon as [reply.sent] holds. The hooks
    that ran are recorded. *)
Fixpoint runHooks (hooks : list Hook) (request : FastifyRequest) (w : World)
  : list Hook * World :=
  if sent (reply w) then ([], w)
  else
    match hooks with
    | [] => ([], w)
    | hook :: rest =>
        let '(ran, w') := runHooks rest request (hook request w) in
        (hook :: ran, w')
    end.

Record Outcome : Type := mkOutcome {
  executed : list Hook;
  final : World;
  dispatched : bool
}.

(** One request through the onRequest phase; the route handler (protocol
    dispatch) runs when no hook has sent the reply. *)
Definition onRequest (app : FastifyInstance) (request : FastifyRequest)
    (w : World) : Outcome :=
  let '(ran, w') := runHooks (onRequestHooks app) request w in
  mkOutcome ran w' (negb (sent (reply w'))).

(** The five stages in the order of the specification. *)
Definition stages (config : SecurityConfig) : list Hook :=
  [ cspMiddleware; requestLoggingMiddleware config; corsMiddleware config;
    rateLimitMiddleware config; authMiddleware config ].

(** The response headers the first stage sets (it also sets
    [X-XSS-Protection]). *)
Definition securityHeaders (r : FastifyReply) : Prop :=
  replyHeaders r !! "Content-Security-Policy" = Some cspValue ∧
  replyHeaders r !! "X-Content-Type-Options" = Some "nosniff" ∧
  replyHeaders r !! "X-Frame-Options" = Some "DENY" ∧
  replyHeaders r !! "Referrer-Policy" = Some "strict-origin-when-cross-origin".

(** A hook rejected the request: it sent the reply with this status. *)
Definition rejectedWith (code : Z) (w : World) : Prop :=
  sent (reply w) = true ∧ statusCode (reply w) = code.

(** A hook let the request through: it wrote no status, no body and no
    audit event, and did not send the reply. *)
Definition passes (w w' : World) : Prop :=
  sent (reply w') = sent (reply w) ∧
  statusCode (reply w') = statusCode (reply w) ∧
  payload (reply w') = payload (reply w) ∧
  audit w' = audit w.

(** A world at server start, with the given clock. *)
Definition world_init (ms : Z) (iso : string) : World :=
  mkWorld reply_init store_init ∅ [] ms iso.

(** A [GET] request with the given path and headers. *)
Definition get (path : string) (hs : list (string * string)) : FastifyRequest :=
  mkRequest path "GET" (list_to_map hs) (Some "203.0.113.7") "req-1".

(** Sample configurations and the world at the epoch. *)
Definition authConfig : SecurityConfig :=
  mkSecurityConfig true (Some "secret123") true 100 true [].

Definition originConfig : SecurityConfig :=
  mkSecurityConfig false None false 100 false ["https://a.com"].

Definition openConfig : SecurityConfig :=
  mkSecurityConfig false None false 100 false [].

Definition epoch : World := world_init 0 "1970-01-01T00:00:00.000Z".


End Middleware.

(** ** Requests one after the other *)

Module RequestSequence.
Import JsString AuditLog RateLimiter Middleware.

(** A new request arrives at clock value [ms]: it gets a reply of its own,
    the module state of [security.ts] and the logger carry over. *)
Definition arrive (ms : Z) (w : World) : World :=
  mkWorld reply_init (audit w) (rateLimitMap w) (requestLog w) ms (nowISO w).

(** The same hook handles a request at each of the given clock values; the
    replies are collected, oldest first. *)
Fixpoint serve (hook : Hook) (request : FastifyRequest) (times : list Z)
    (w : World) : list FastifyReply * World :=
  match times with
  | [] => ([], w)
  | ms :: rest =>
      let w1 := hook request (arrive ms w) in
      let '(replies, w2) := serve hook request rest w1 in
      (reply w1 :: replies, w2)
  end.

(** The text of a [TRUSTED_ORIGINS] variable that lists [xs]. *)
Fixpoint commaJoin (xs : list string) : string :=
  match xs with
  | [] => EmptyString
  | [x] => x
  | x :: rest => x +:+ "," +:+ commaJoin rest
  end.

Definition commaFree (s : string) : bool :=
  allChars (λ c, negb (Ascii.eqb c ",")) s.

End RequestSequence.

(** ** The tool-call handler ([src/mcp-server.ts], [CallToolRequestSchema]) *)

Module ToolServer.
Import JsString Regex InputValidator AuditLog RateLimiter.

(** The value of [args?.name], which the handler casts [as string] without
    a check: [undefined], a string, or any other value, of which only its
    truth value matters. *)
Inductive JsValue : Type :=
| Undefined
| Str (s : string)
| Other (truthy : bool).

Definition truthyValue (v : JsValue) : bool :=
  match v with
  | Undefined => false
  | Str s => negb (String.eqb s "")
  | Other b => b
  end.

(** The value as an audit detail: a string, or nothing. *)
Definition detailOf (v : JsValue) : option string :=
  match v with
  | Str s => Some s
  | _ => None
  end.

(** [sanitizeInput] on an unchecked value: the [typeof] guard comes first. *)
Definition sanitizeInputValue (input : JsValue) (maxLength : Z)
    (patterns : list RegExp) : result string * list RegExp :=
  match input with
  | Str s => sanitizeInput s maxLength patterns
  | _ => (Throw "Input must be a string", patterns)
  end.

(** The result of a tool call: one text item, and the [isError] flag
    (absent on success). *)
Record ToolResult : Type := mkToolResult {
  text : string;
  isError : bool
}.

(** The module state of [security.ts] the handler works on. *)
Record ServerState : Type := mkServerState {
  limits : gmap string RateLimitEntry;
  log : Store;
  patterns : list RegExp
}.

Definition server_init : ServerState :=
  mkServerState rateLimitMap_init store_init DANGEROUS_PATTERNS.

Definition invalidInputText : string :=
  "Error: Invalid input provided. Please ensure your input contains only safe characters.".

Definition defaultGreeting : string :=
  "Hello, World! Your MCP server is working correctly.".

Definition rateLimitMessage : string :=
  "Rate limit exceeded. Please try again later.".

(** The handler of [CallToolRequestSchema] for a call [name] with
    [args?.name = arg], at clock value [now] ([iso] as text). The audit
    detail [args] is recorded by its [name] field. *)
Definition callTool (now : Z) (iso : string) (name : string) (arg : JsValue)
    (st : ServerState) : result ToolResult * ServerState :=
  let '(allowed, limits') :=
    checkRateLimit now ("tool:" +:+ name) 50 60000 (limits st) in
  if negb allowed then
    (Throw rateLimitMessage,
     mkServerState limits'
       (logSecurityEvent
          (mkInput "rate_limit_exceeded" name
             [("tool", Some name); ("args.name", detailOf arg)] medium)
          iso (log st))
       (patterns st))
  else if String.eqb name "hello_world" then
    (* [nameToGreet ? sanitizeInput(nameToGreet, 50) : null]; [null] and the
       empty string are both false in the condition on [safeName] *)
    let '(safeName, patterns') :=
      if truthyValue arg then sanitizeInputValue arg 50 (patterns st)
      else (Return EmptyString, patterns st) in
    match safeName with
    | inr safe =>
        (Return
           (mkToolResult
              (if negb (String.eqb safe "")
               then "Hello, " +:+ safe +:+ "! Welcome to your MCP server."
               else defaultGreeting)
              false),
         mkServerState limits' (log st) patterns')
    | inl message =>
        (Return (mkToolResult invalidInputText true),
         mkServerState limits'
           (logSecurityEvent
              (mkInput "input_validation_failed" "hello_world"
                 [("args.name", detailOf arg); ("error", Some message)] medium)
              iso (log st))
           patterns')
    end
  else
    (Throw ("Unknown tool: " +:+ name),
     mkServerState limits' (log st) (patterns st)).

(** Calls of one tool with one argument at the given clock values. *)
Fixpoint callToolAt (name : string) (arg : JsValue) (times : list (Z * string))
    (st : ServerState) : list (result ToolResult) * ServerState :=
  match times with
  | [] => ([], st)
  | (now, iso) :: rest =>
      let '(r, st1) := callTool now iso name arg st in
      let '(rs, st2) := callToolAt name arg rest st1 in
      (r :: rs, st2)
  end.

(** The pattern objects differ from the ones created at load time in their
    [lastIndex] at most. *)
Definition patternState (ps : list RegExp) : Prop :=
  (λ re, setLastIndex re 0) <$> ps = DANGEROUS_PATTERNS.

End ToolServer.

(** ** Shapes of observable results *)

Module Observations.
Import JsString AuditLog RateLimiter Middleware.

(** The string does not begin with white space. *)
Definition startsClean (s : string) : Prop :=
  match s with
  | EmptyString => True
  | String a _ => isWhiteSpace a = false
  end.

(** The reply of a rate-limit rejection to a request that had an untouched
    reply. *)
Definition tooManyRequests : FastifyReply :=
  send (mkPayload "Too Many Requests"
          "Rate limit exceeded. Please try again later." (Some 60))
       (status 429 reply_init).



End Observations.

(** ** Sample environments *)

Module SampleEnv.

Definition rateLimitUpperCase : gmap string string :=
  {["ENABLE_RATE_LIMIT" := "TRUE"]}.

Definition portInWords : gmap string string := {["PORT" := "eighty"]}.

Definition unrelated : gmap string string := {["HOME" := "/root"]}.

Definition twoOrigins : gmap string string :=
  {["TRUSTED_ORIGINS" := "http://localhost:3000,https://myapp.com"]}.

End SampleEnv.

(** ** Sample configurations and worlds for the hooks *)

Module SampleWorld.
Import AuditLog RateLimiter Middleware.

(** Rate limiting on at two requests per minute, everything else off. *)
Definition twoPerMinute : SecurityConfig :=
  mkSecurityConfig false None true 2 false [].

(** The world at the epoch, with the bucket of the sample connection
    address already at a limit of two. *)
Definition exhausted : World :=
  mkWorld reply_init store_init {["203.0.113.7" := mkEntry 2 60000]} []
          1000 "1970-01-01T00:00:01.000Z".

End SampleWorld.

(** * Properties *)

Section RateLimiterProps.
Import RateLimiter.

Implicit Types (m : gmap string RateLimitEntry) (identifier : string).

Lemma checkRateLimit_fresh m identifier now maxRequests windowMs :
  no_live_entry m identifier now →
  checkRateLimit now identifier maxRequests windowMs m
  = (true, <[identifier := mkEntry 1 (now + windowMs)]> m).
Proof.
  unfold no_live_entry, checkRateLimit.
  destruct (m !! identifier) as [c|]; [|done].
  intros Hexpired. by rewrite (proj2 (Z.ltb_lt _ _) Hexpired).
Qed.

Lemma checkRateLimit_admit m identifier now N windowMs c r :
  m !! identifier = Some (mkEntry c r) → now ≤ r → c < N →
  checkRateLimit now identifier N windowMs m
  = (true, <[identifier := mkEntry (c + 1) r]> m).
Proof.
  intros Hm Hnow Hc. unfold checkRateLimit. rewrite Hm. simpl.
  destruct (Z.ltb_spec r now); [lia|].
  destruct (Z.leb_spec N c); [lia|done].
Qed.

Lemma checkRateLimit_deny m identifier now N windowMs c r :
  m !! identifier = Some (mkEntry c r) → now ≤ r → N ≤ c →
  checkRateLimit now identifier N windowMs m = (false, m).
Proof.
  intros Hm Hnow Hc. unfold checkRateLimit. rewrite Hm. simpl.
  destruct (Z.ltb_spec r now); [lia|].
  destruct (Z.leb_spec N c); [done|lia].
Qed.

(** Calls for another identifier leave the entry of [identifier] alone. *)
Lemma checkRateLimit_other m identifier other now N windowMs :
  other ≠ identifier →
  (checkRateLimit now other N windowMs m).2 !! identifier = m !! identifier.
Proof.
  intros Hne. unfold checkRateLimit.
  destruct (m !! other) as [c|]; simpl; [|by rewrite lookup_insert_ne].
  destruct (resetTime c <? now); simpl; [by rewrite lookup_insert_ne|].
  destruct (N <=? count c); simpl; [done|by rewrite lookup_insert_ne].
Qed.

(** The sweep keeps every entry whose window is still open. *)
Lemma cleanupRateLimit_live m identifier now c :
  m !! identifier = Some c → now ≤ resetTime c →
  cleanupRateLimit now m !! identifier = Some c.
Proof.
  intros Hm Hlive. unfold cleanupRateLimit.
  apply map_lookup_filter_Some. split; [done|]. simpl. lia.
Qed.

Lemma cleanupRateLimit_expired m identifier now c :
  m !! identifier = Some c → resetTime c < now →
  cleanupRateLimit now m !! identifier = None.
Proof.
  intros Hm Hexp. unfold cleanupRateLimit.
  apply map_lookup_filter_None. right. intros c' Hc'. simpl.
  rewrite Hm in Hc'. injection Hc' as <-. lia.
Qed.

(** Inside an open window with [c] requests counted, [k] further calls
    are all admitted as long as [c + k] does not pass the limit. *)
Lemma calls_admitted identifier N windowMs ts : ∀ m c r,
  m !! identifier = Some (mkEntry c r) →
  Forall (λ t, t ≤ r) ts →
  c + Z.of_nat (length ts) ≤ N →
  calls identifier N windowMs ts m
  = (replicate (length ts) true,
     <[identifier := mkEntry (c + Z.of_nat (length ts)) r]> m).
Proof.
  induction ts as [|t ts IH]; intros m c r Hm Hts Hc; simpl in *.
  - rewrite Z.add_0_r. by rewrite insert_id.
  - inversion Hts as [|? ? Ht Hts']; subst.
    rewrite (checkRateLimit_admit m identifier t N windowMs c r) by (done || lia).
    rewrite (IH _ (c + 1) r); [| by rewrite lookup_insert_eq | done | lia].
    rewrite insert_insert_eq. do 3 f_equal. lia.
Qed.

Lemma calls_app identifier N windowMs ts1 ts2 m :
  calls identifier N windowMs (ts1 ++ ts2) m
  = let '(bs1, m1) := calls identifier N windowMs ts1 m in
    let '(bs2, m2) := calls identifier N windowMs ts2 m1 in
    (bs1 ++ bs2, m2).
Proof.
  revert m. induction ts1 as [|t ts1 IH]; intros m; simpl.
  - by destruct (calls identifier N windowMs ts2 m).
  - destruct (checkRateLimit t identifier N windowMs m) as [b m1].
    rewrite IH.
    destruct (calls identifier N windowMs ts1 m1) as [bs1 m2].
    by destruct (calls identifier N windowMs ts2 m2).
Qed.

End RateLimiterProps.

Section RateLimiterClaims.
Import RateLimiter.

Implicit Types (m : gmap string RateLimitEntry) (identifier : string).

(** C1, as stated, at the limit [N = 0]: with no entry for the identifier
    the first call (call [N+1]) is admitted, where the claim wants it
    denied. *)
Lemma rate_limit_window_zero_limit :
  ¬ window_property "client" 0 60000 rateLimitMap_init 0 [].
Proof.
  unfold window_property. simpl.
  rewrite checkRateLimit_fresh by done.
  intros [Hbs _]. discriminate Hbs.
Qed.

(** C1 (amended): for every identifier and every limit [N ≥ 1], starting
    from a state with no live entry for the identifier, the first [N] calls
    inside the window are admitted, call [N+1] inside the same window is
    denied, and any call after the window's reset time is admitted again
    and installs a fresh window with count 1. *)
Theorem rate_limit_window identifier N windowMs m t0 ts :
  1 ≤ N →
  no_live_entry m identifier t0 →
  length ts = Z.to_nat N →
  Forall (λ t, t ≤ t0 + windowMs) ts →
  window_property identifier N windowMs m t0 ts.
Proof.
  intros HN Hfresh Hlen Hin.
  destruct (exists_last (l := ts)) as (ts1 & tl & ->).
  { intros ->. simpl in Hlen. lia. }
  rewrite length_app in Hlen. simpl in Hlen.
  apply Forall_app in Hin as [Hin1 Hin2].
  rewrite Forall_singleton in Hin2.
  unfold window_property. cbn [calls].
  rewrite checkRateLimit_fresh by done.
  set (m1 := <[identifier := mkEntry 1 (t0 + windowMs)]> m).
  rewrite calls_app.
  rewrite (calls_admitted identifier N windowMs ts1 m1 1 (t0 + windowMs));
    [| by apply lookup_insert_eq | done | lia].
  cbn [calls].
  subst m1. rewrite insert_insert_eq.
  set (m2 := <[identifier := _]> m).
  assert (Hm2 : m2 !! identifier
                = Some (mkEntry (1 + Z.of_nat (length ts1)) (t0 + windowMs)))
    by apply lookup_insert_eq.
  rewrite (checkRateLimit_deny m2 identifier tl N windowMs _ _ Hm2)
    by (done || lia).
  split.
  - replace (Z.to_nat N) with (S (length ts1)) by lia. done.
  - intros t' Ht'. apply checkRateLimit_fresh.
    unfold no_live_entry. rewrite Hm2. simpl. lia.
Qed.

Lemma rate_limit_window_witness :
  window_property "client" 2 60000 rateLimitMap_init 1000 [1500; 61000].
Proof.
  apply rate_limit_window.
  - lia.
  - exact I.
  - reflexivity.
  - repeat constructor; lia.
Defined.

(** C10: when the identifier has no entry, or its window has expired
    ([now > resetTime]), [checkRateLimit] admits the call and installs
    [{count: 1, resetTime: now + windowMs}] without looking at
    [maxRequests]; in particular the call is admitted for
    [maxRequests = 0]. *)
Theorem first_call_admitted_any_limit m identifier now windowMs :
  no_live_entry m identifier now →
  (∀ maxRequests,
     checkRateLimit now identifier maxRequests windowMs m
     = (true, <[identifier := mkEntry 1 (now + windowMs)]> m)) ∧
  (checkRateLimit now identifier 0 windowMs m).1 = true ∧
  (checkRateLimit now identifier 0 windowMs m).2 !! identifier
  = Some (mkEntry 1 (now + windowMs)).
Proof.
  intros Hfresh. split; [|split].
  - intros maxRequests. by apply checkRateLimit_fresh.
  - by rewrite checkRateLimit_fresh.
  - rewrite checkRateLimit_fresh by done. apply lookup_insert_eq.
Qed.

Lemma first_call_admitted_any_limit_witness :
  (checkRateLimit 70000 "client" 0 60000
     {["client" := mkEntry 100 60000]}).1 = true.
Proof.
  refine (proj1 (proj2 (first_call_admitted_any_limit
                          {["client" := mkEntry 100 60000]}
                          "client" 70000 60000 _))).
  unfold no_live_entry. rewrite lookup_singleton_eq. simpl. lia.
Defined.

End RateLimiterClaims.


Section MiddlewareFacts.
Import JsString AuditLog RateLimiter Middleware.

Implicit Types (config : SecurityConfig) (request : FastifyRequest) (w : World).

Lemma reply_logEvent e w : reply (logEvent e w) = reply w.
Proof. done. Qed.

Lemma rejectedWith_send code body e w :
  rejectedWith code (setReply (send body (status code (reply (logEvent e w))))
                       (logEvent e w)).
Proof. by split. Qed.

Lemma authMiddleware_unprotected config request w :
  startsWith (url request) "/mcp" = false →
  authMiddleware config request w = w.
Proof.
  intros Hurl. unfold authMiddleware. rewrite Hurl.
  by rewrite orb_true_r.
Qed.

Lemma authMiddleware_disabled config request w :
  enableAuth config = false → authMiddleware config request w = w.
Proof. intros Hoff. unfold authMiddleware. by rewrite Hoff. Qed.

Lemma authMiddleware_no_bearer config request w :
  enableAuth config = true →
  startsWith (url request) "/mcp" = true →
  startsWith (default "" (headers request !! "authorization")) "Bearer " = false →
  rejectedWith 401 (authMiddleware config request w).
Proof.
  intros Hon Hurl Hhdr. unfold authMiddleware.
  rewrite Hon, Hurl, Hhdr. simpl. rewrite orb_true_r.
  apply rejectedWith_send.
Qed.

Lemma authMiddleware_token config request w token :
  enableAuth config = true →
  startsWith (url request) "/mcp" = true →
  headers request !! "authorization" = Some ("Bearer " +:+ token) →
  authMiddleware config request w
  = if bool_decide (Some token = apiKey config) then w
    else setReply
           (send (mkPayload "Forbidden" "Invalid API key" None)
              (status 403 (reply w)))
           (logEvent
              (mkInput "authentication_failed" (getClientIP request)
                 [("url", Some (url request));
                  ("userAgent", headers request !! "user-agent");
                  ("reason", Some "invalid_token")] high) w).
Proof.
  intros Hon Hurl Hhdr. unfold authMiddleware.
  rewrite Hon, Hurl, Hhdr. simpl.
  change ("" +:+ token) with token.
  by destruct (bool_decide (Some token = apiKey config)).
Qed.

End MiddlewareFacts.

Section AuthGuardClaims.
Import JsString AuditLog RateLimiter Middleware.

Implicit Types (config : SecurityConfig) (request : FastifyRequest) (w : World).

(** C2: with [enableAuth = true] and [apiKey = "secret123"], a request
    under the protected prefix [/mcp] with [Authorization: Bearer secret123]
    is admitted (nothing is written); with [Bearer wrong], and with any other
    bearer token, it is rejected with status 403; with no [Authorization]
    header, or one that does not start with [Bearer ], it is rejected with
    status 401; a request outside the prefix is admitted whatever the
    header. *)
Theorem auth_guard_bearer config request w :
  enableAuth config = true →
  apiKey config = Some "secret123" →
  (startsWith (url request) "/mcp" = true →
     (headers request !! "authorization" = Some "Bearer secret123" →
        authMiddleware config request w = w) ∧
     (headers request !! "authorization" = Some "Bearer wrong" →
        rejectedWith 403 (authMiddleware config request w)) ∧
     (∀ token, token ≠ "secret123" →
        headers request !! "authorization" = Some ("Bearer " +:+ token) →
        rejectedWith 403 (authMiddleware config request w)) ∧
     (headers request !! "authorization" = None →
        rejectedWith 401 (authMiddleware config request w)) ∧
     (∀ h, headers request !! "authorization" = Some h →
        startsWith h "Bearer " = false →
        rejectedWith 401 (authMiddleware config request w))) ∧
  (startsWith (url request) "/mcp" = false →
     authMiddleware config request w = w).
Proof.
  intros Hon Hkey. split; [intros Hurl | by apply authMiddleware_unprotected].
  assert (Hbad : ∀ token, token ≠ "secret123" →
            headers request !! "authorization" = Some ("Bearer " +:+ token) →
            rejectedWith 403 (authMiddleware config request w)).
  { intros token Hne Hhdr.
    rewrite (authMiddleware_token config request w token) by done.
    rewrite Hkey, bool_decide_eq_false_2 by congruence.
    apply rejectedWith_send. }
  split; [|split; [|split; [|split]]].
  - intros Hhdr.
    rewrite (authMiddleware_token config request w "secret123") by done.
    by rewrite Hkey, bool_decide_eq_true_2.
  - intros Hhdr. by apply (Hbad "wrong").
  - exact Hbad.
  - intros Hhdr. apply authMiddleware_no_bearer; [done..|]. by rewrite Hhdr.
  - intros h Hhdr Hpre. apply authMiddleware_no_bearer; [done..|].
    by rewrite Hhdr.
Qed.

End AuthGuardClaims.

Section AuthGuardWitness.
Import JsString AuditLog RateLimiter Middleware.

Lemma auth_guard_bearer_witness :
  authMiddleware authConfig (get "/mcp" [("authorization", "Bearer secret123")]) epoch = epoch ∧
  rejectedWith 403
    (authMiddleware authConfig (get "/mcp" [("authorization", "Bearer wrong")]) epoch) ∧
  rejectedWith 401 (authMiddleware authConfig (get "/mcp" []) epoch) ∧
  rejectedWith 401
    (authMiddleware authConfig (get "/mcp" [("authorization", "Basic dXNlcg==")]) epoch) ∧
  authMiddleware authConfig (get "/health" [("authorization", "Bearer wrong")]) epoch = epoch.
Proof.
  split; [|split; [|split; [|split]]].
  - destruct (auth_guard_bearer authConfig
                (get "/mcp" [("authorization", "Bearer secret123")]) epoch
                eq_refl eq_refl) as [Hprotected _].
    destruct (Hprotected eq_refl) as (Hgood & _). exact (Hgood eq_refl).
  - destruct (auth_guard_bearer authConfig
                (get "/mcp" [("authorization", "Bearer wrong")]) epoch
                eq_refl eq_refl) as [Hprotected _].
    destruct (Hprotected eq_refl) as (_ & Hwrong & _). exact (Hwrong eq_refl).
  - destruct (auth_guard_bearer authConfig (get "/mcp" []) epoch eq_refl eq_refl)
      as [Hprotected _].
    destruct (Hprotected eq_refl) as (_ & _ & _ & Hnone & _).
    exact (Hnone eq_refl).
  - destruct (auth_guard_bearer authConfig
                (get "/mcp" [("authorization", "Basic dXNlcg==")]) epoch
                eq_refl eq_refl) as [Hprotected _].
    destruct (Hprotected eq_refl) as (_ & _ & _ & _ & Hother).
    exact (Hother "Basic dXNlcg==" eq_refl eq_refl).
  - destruct (auth_guard_bearer authConfig
                (get "/health" [("authorization", "Bearer wrong")]) epoch
                eq_refl eq_refl) as [_ Hunprotected].
    exact (Hunprotected eq_refl).
Defined.

End AuthGuardWitness.

Section OriginGuardClaims.
Import JsString AuditLog RateLimiter Middleware.

Implicit Types (config : SecurityConfig) (request : FastifyRequest) (w : World).

Lemma corsMiddleware_open config request w :
  truthy (headers request !! "origin")
  && (0 <? length (trustedOrigins config))%nat = false →
  passes w (corsMiddleware config request w).
Proof.
  intros Hopen. unfold corsMiddleware. rewrite Hopen.
  by destruct (startsWith (url request) "/mcp").
Qed.

(** C6: with [trustedOrigins = ["https://a.com"]], a request under [/mcp]
    with [Origin: https://a.com] is admitted and the response carries
    [Access-Control-Allow-Origin] with exactly that origin; one with
    [Origin: https://evil.com] is rejected with status 403; a request with
    no [Origin] header, and any request when the trusted set is empty,
    passes unchecked. *)
Theorem origin_guard config request w :
  (trustedOrigins config = ["https://a.com"] →
   startsWith (url request) "/mcp" = true →
     (headers request !! "origin" = Some "https://a.com" →
        passes w (corsMiddleware config request w) ∧
        replyHeaders (reply (corsMiddleware config request w))
          !! "Access-Control-Allow-Origin" = Some "https://a.com") ∧
     (headers request !! "origin" = Some "https://evil.com" →
        rejectedWith 403 (corsMiddleware config request w))) ∧
  (headers request !! "origin" = None →
     passes w (corsMiddleware config request w)) ∧
  (trustedOrigins config = [] →
     passes w (corsMiddleware config request w)).
Proof.
  split; [|split].
  - intros Htrust Hurl. split; intros Horigin.
    + unfold corsMiddleware. rewrite Hurl, Horigin, Htrust. simpl.
      split; [done|].
      do 3 (rewrite lookup_insert_ne by done). apply lookup_insert_eq.
    + unfold corsMiddleware. rewrite Hurl, Horigin, Htrust. simpl.
      apply rejectedWith_send.
  - intros Horigin. apply corsMiddleware_open. by rewrite Horigin.
  - intros Htrust. apply corsMiddleware_open. rewrite Htrust.
    apply andb_false_r.
Qed.

End OriginGuardClaims.

Section OriginGuardWitness.
Import JsString AuditLog RateLimiter Middleware.

Lemma origin_guard_witness :
  replyHeaders (reply (corsMiddleware originConfig (get "/mcp" [("origin", "https://a.com")]) epoch))
    !! "Access-Control-Allow-Origin" = Some "https://a.com" ∧
  rejectedWith 403
    (corsMiddleware originConfig (get "/mcp" [("origin", "https://evil.com")]) epoch) ∧
  passes epoch (corsMiddleware originConfig (get "/mcp" []) epoch) ∧
  passes epoch (corsMiddleware openConfig (get "/mcp" [("origin", "https://evil.com")]) epoch).
Proof.
  split; [|split; [|split]].
  - destruct (origin_guard originConfig (get "/mcp" [("origin", "https://a.com")]) epoch)
      as (Hlisted & _).
    destruct (Hlisted eq_refl eq_refl) as (Htrusted & _).
    exact (proj2 (Htrusted eq_refl)).
  - destruct (origin_guard originConfig (get "/mcp" [("origin", "https://evil.com")]) epoch)
      as (Hlisted & _).
    destruct (Hlisted eq_refl eq_refl) as (_ & Hevil). exact (Hevil eq_refl).
  - destruct (origin_guard originConfig (get "/mcp" []) epoch) as (_ & Hnone & _).
    exact (Hnone eq_refl).
  - destruct (origin_guard openConfig (get "/mcp" [("origin", "https://evil.com")]) epoch)
      as (_ & _ & Hempty).
    exact (Hempty eq_refl).
Defined.

End OriginGuardWitness.

Section JsStringFacts.
Import JsString.

Lemma startsWith_spec s p :
  startsWith s p = true ↔ ∃ rest, s = p +:+ rest.
Proof.
  revert s. induction p as [|a p IH]; intros s; simpl.
  - split; [eauto|done].
  - destruct s as [|b s]; simpl.
    + split; [done|]. intros [rest Hrest]. discriminate Hrest.
    + rewrite andb_true_iff, Ascii.eqb_eq, IH. split.
      * intros [-> [rest ->]]. by exists rest.
      * intros [rest Hrest]. injection Hrest as -> ->. eauto.
Qed.

Lemma includes_contains s needle :
  includes s needle = true ↔ contains s needle.
Proof.
  unfold contains. induction s as [|c s IH].
  - cbn [includes]. rewrite orb_false_r, startsWith_spec. split.
    + intros [rest Hrest]. exists "", rest. done.
    + intros (before & after & Heq). destruct before; [|discriminate Heq].
      by exists after.
  - cbn [includes]. rewrite orb_true_iff, IH, startsWith_spec. split.
    + intros [[rest Hrest] | (before & after & Heq)].
      * by exists "", rest.
      * exists (String c before), after. simpl. by rewrite Heq.
    + intros (before & after & Heq). destruct before as [|b before].
      * left. by exists after.
      * right. simpl in Heq. injection Heq as _ ->. by exists before, after.
Qed.

Lemma includes_not_contains s needle :
  ¬ contains s needle → includes s needle = false.
Proof.
  intros Hno. destruct (includes s needle) eqn:Hinc; [|done].
  by apply includes_contains in Hinc.
Qed.

Lemma allChars_app member s t :
  allChars member (s +:+ t) = allChars member s && allChars member t.
Proof.
  induction s as [|c s IH]; simpl; [done|].
  by rewrite IH, andb_assoc.
Qed.

(** A string all of whose characters are in a class has none outside. *)
Lemma allChars_contains member s c :
  allChars member s = true → member c = false → ¬ contains s (String c "").
Proof.
  intros Hall Hc (before & after & ->).
  rewrite allChars_app in Hall. simpl in Hall. rewrite Hc in Hall.
  by rewrite andb_false_r in Hall.
Qed.

End JsStringFacts.

Section RegexFacts.
Import JsString Regex.

Lemma run_allChars member s :
  allChars member s = true → run member s = String.length s.
Proof.
  induction s as [|c s IH]; simpl; [done|].
  intros [Hc Hs]%andb_true_iff. rewrite Hc. f_equal. by apply IH.
Qed.

(** The search finds a match as soon as one starts within its range. *)
Lemma search_complete fuel ic r input i j :
  (i ≤ j ≤ i + fuel)%nat →
  matchFrom ic r input j ≠ [] →
  is_Some (search fuel ic r input i).
Proof.
  revert i. induction fuel as [|fuel IH]; intros i Hj Hmatch; simpl.
  - assert (j = i) as -> by lia.
    destruct (matchFrom ic r input i); [done|eauto].
  - destruct (matchFrom ic r input i) eqn:Hi; [|eauto].
    apply IH; [|done].
    destruct (decide (j = i)) as [->|]; [congruence|lia].
Qed.

(** A found match starts somewhere in the range searched. *)
Lemma search_sound fuel ic r input i e :
  search fuel ic r input i = Some e →
  ∃ j, (i ≤ j ≤ i + fuel)%nat ∧ matchFrom ic r input j ≠ [].
Proof.
  revert i. induction fuel as [|fuel IH]; intros i; simpl.
  - destruct (matchFrom ic r input i) eqn:Hi; [done|].
    intros _. exists i. split; [lia|]. by rewrite Hi.
  - destruct (matchFrom ic r input i) eqn:Hi.
    + intros (j & Hj & Hm)%IH. exists j. split; [lia|done].
    + intros _. exists i. split; [lia|]. by rewrite Hi.
Qed.

(** With [lastIndex = 0], [test] answers whether the input has a match. *)
Lemma test_fresh re input :
  lastIndex re = 0%nat →
  matchesSomewhere re input →
  (test re input).1 = true.
Proof.
  intros Hzero (j & Hj & Hmatch). unfold test, exec. rewrite Hzero.
  replace (if global re then 0%nat else 0%nat) with 0%nat by by destruct (global re).
  destruct (Nat.ltb_spec (String.length input) 0); [lia|].
  destruct (search_complete (String.length input - 0) (ignoreCase re)
              (source re) input 0 j) as [e ->]; [lia|done|done].
Qed.

(** A global expression whose [lastIndex] is at the end of the input
    reports no match, whatever the input contains before that point, as
    long as nothing matches at the very end. *)
Lemma test_stale re input :
  global re = true →
  lastIndex re = String.length input →
  matchFrom (ignoreCase re) (source re) input (String.length input) = [] →
  test re input = (false, setLastIndex re 0).
Proof.
  intros Hg Hlast Hend. unfold test, exec. rewrite Hg, Hlast.
  rewrite Nat.ltb_irrefl, Nat.sub_diag. simpl. by rewrite Hend.
Qed.

End RegexFacts.

Section InputValidatorFacts.
Import JsString Regex InputValidator.

Lemma anyTest_fresh patterns input re :
  re ∈ patterns →
  lastIndex re = 0%nat →
  matchesSomewhere re input →
  (anyTest patterns input).1 = true.
Proof.
  intros Hin Hzero Hmatch.
  induction patterns as [|p ps IH]; [by apply elem_of_nil in Hin|].
  simpl. destruct (test p input) as [matched p'] eqn:Htest.
  destruct matched; [done|].
  apply elem_of_cons in Hin as [->|Hin].
  - pose proof (test_fresh p input Hzero Hmatch) as Hp.
    rewrite Htest in Hp. discriminate Hp.
  - destruct (anyTest ps input) as [matched' ps'] eqn:Hrest. simpl.
    by apply IH.
Qed.

(** On freshly created pattern objects the denylist works as intended:
    an input within the length limit that has a match of any of the five
    patterns is refused. *)
Lemma sanitizeInput_fresh_rejects input maxLength re :
  Z.of_nat (String.length input) ≤ maxLength →
  re ∈ DANGEROUS_PATTERNS →
  matchesSomewhere re input →
  throws (sanitizeInput input maxLength DANGEROUS_PATTERNS).1.
Proof.
  intros Hlen Hin Hmatch. unfold sanitizeInput.
  destruct (Z.ltb_spec maxLength (Z.of_nat (String.length input))); [lia|].
  assert (Hzero : lastIndex re = 0%nat).
  { unfold DANGEROUS_PATTERNS in Hin.
    repeat (apply elem_of_cons in Hin as [->|Hin]; [done|]).
    by apply elem_of_nil in Hin. }
  pose proof (anyTest_fresh DANGEROUS_PATTERNS input re Hin Hzero Hmatch) as Hany.
  destruct (anyTest DANGEROUS_PATTERNS input) as [dangerous ps].
  simpl in Hany. subst dangerous. simpl. by eexists.
Qed.

(** The safe-path pattern accepts every non-empty string of safe
    characters. *)
Lemma SAFE_PATH_PATTERN_accepts s :
  s ≠ "" → allChars safePathChar s = true →
  (test SAFE_PATH_PATTERN s).1 = true.
Proof.
  intros Hne Hall. apply test_fresh; [done|].
  exists 0%nat. split; [lia|].
  unfold SAFE_PATH_PATTERN. cbn [source ignoreCase matchFrom slice Nat.eqb].
  fold safePathChar. intros Hnil.
  assert (Hin : String.length s ∈ @nil nat); [|by apply elem_of_nil in Hin].
  rewrite <- Hnil.
  apply list_elem_of_bind. exists 0%nat. split; [|set_solver].
  cbn beta. cbn [slice]. rewrite (run_allChars _ s Hall).
  apply list_elem_of_bind. exists (String.length s). split.
  - rewrite Nat.eqb_refl. set_solver.
  - apply list_elem_of_fmap.
    exists (String.length s). split; [done|].
    rewrite elem_of_reverse, elem_of_seq.
    destruct s; [done|]. simpl. lia.
Qed.

End InputValidatorFacts.

Section InputValidatorClaims.
Import JsString Regex InputValidator.

(** C3, what the code does: the pattern objects are shared by all calls and
    carry the [g] flag, so a match leaves its end position in [lastIndex] and
    the next test of that object starts there. The input [a;] contains the
    shell metacharacter [;] and is within the length limit. The first call
    of [sanitizeInput] throws; the second call, on the same input, finds no
    match from position 2, strips the [;] in the final pass and returns
    [a]. The claim wants every call to fail. *)
Theorem sanitizeInput_second_call_strips :
  ∃ re first patterns1 second patterns2,
    re ∈ DANGEROUS_PATTERNS ∧ matchesSomewhere re "a;" ∧
    Z.of_nat (String.length "a;") ≤ 50 ∧
    sanitizeInput "a;" 50 DANGEROUS_PATTERNS = (first, patterns1) ∧
    first = Throw "Input contains potentially dangerous characters or commands" ∧
    sanitizeInput "a;" 50 patterns1 = (second, patterns2) ∧
    second = Return "a".
Proof.
  eexists (global_re (Class (ones ";&|`$(){}[]\")) false), _, _, _, _.
  split; [apply list_elem_of_here|].
  split; [exists 1%nat; split; [simpl; lia | discriminate] |].
  split; [simpl; lia|].
  split; [reflexivity|]. split; [reflexivity|].
  split; reflexivity.
Qed.

(** C7, as stated, at the path [a/../b]: all of its characters are in
    [[A-Za-z0-9._/-]], and [validateFilePath] throws. *)
Lemma validateFilePath_safe_chars_dotdot :
  allChars safePathChar "a/../b" = true ∧
  validateFilePath "a/../b" = Throw "Path traversal detected".
Proof. split; reflexivity. Qed.

(** C7 (amended): [validateFilePath] fails for every path whose normalized
    form contains [..] or [~] anywhere (so also for a [..] segment and for a
    leading [~]), and succeeds, returning the normalized path, for every
    non-empty path drawn only from [[A-Za-z0-9._/-]] that does not contain
    [..]. *)
Theorem validateFilePath_spec :
  (∀ path, contains (normalize path) ".." ∨ contains (normalize path) "~" →
     throws (validateFilePath path)) ∧
  (∀ path, path ≠ "" → allChars safePathChar path = true →
     ¬ contains path ".." →
     validateFilePath path = Return (normalize path)).
Proof.
  split.
  - intros path Hbad. unfold validateFilePath.
    destruct (String.eqb path ""); [by eexists|].
    assert (includes (normalize path) ".." || includes (normalize path) "~"
            = true) as ->; [|by eexists].
    apply orb_true_iff. by rewrite !includes_contains.
  - intros path Hne Hall Hdots. unfold validateFilePath, normalize.
    rewrite (proj2 (String.eqb_neq path "")) by done.
    rewrite (includes_not_contains path "..") by done.
    rewrite (includes_not_contains path "~")
      by (by apply (allChars_contains safePathChar)).
    by rewrite SAFE_PATH_PATTERN_accepts.
Qed.

Lemma validateFilePath_spec_witness :
  throws (validateFilePath "../etc/passwd") ∧
  throws (validateFilePath "~/.ssh/id_rsa") ∧
  validateFilePath "src/index.ts" = Return "src/index.ts".
Proof.
  destruct validateFilePath_spec as [Hreject Haccept].
  split; [|split].
  - apply Hreject. left. by exists "", "/etc/passwd".
  - apply Hreject. right. by exists "", "/.ssh/id_rsa".
  - apply (Haccept "src/index.ts"); [discriminate | reflexivity |].
    intros Hdots. apply includes_contains in Hdots. discriminate Hdots.
Defined.

End InputValidatorClaims.

Section ValidateUrlClaims.
Import JsString Regex InputValidator.

(** The platform's [new URL(url)]. *)
Variable URL_new : string → result URL.

Lemma validateUrl_throws_iff url allowedSchemes :
  throws (validateUrl URL_new url allowedSchemes)
  ↔ throws (validateUrl_try URL_new url allowedSchemes).
Proof.
  unfold validateUrl.
  destruct (validateUrl_try URL_new url allowedSchemes) as [message|parsed].
  - split; intros _; by eexists.
  - split; intros [message Hm]; discriminate Hm.
Qed.

(** [validateUrl] returns exactly when the address parses, its scheme is
    allowed and its host name is not one of the refused texts; it then
    returns the parsed object. *)
Lemma validateUrl_returns url allowedSchemes parsed :
  validateUrl URL_new url allowedSchemes = Return parsed
  ↔ URL_new url = Return parsed ∧
    arrayIncludes allowedSchemes (removeFirst ":" (protocol parsed)) = true ∧
    privateHost (hostname parsed) = false.
Proof.
  unfold validateUrl, validateUrl_try.
  destruct (URL_new url) as [message|u]; simpl.
  - split; [discriminate|]. intros [Hparse _]. discriminate Hparse.
  - destruct (arrayIncludes allowedSchemes (removeFirst ":" (protocol u)))
      eqn:Hscheme; simpl.
    + destruct (privateHost (hostname u)) eqn:Hhost; simpl.
      * split; [discriminate|]. intros (Hparse & _ & Hpriv).
        injection Hparse as <-. congruence.
      * split.
        -- intros Hret. injection Hret as <-. done.
        -- intros (Hparse & _). injection Hparse as <-. done.
    + split; [discriminate|]. intros (Hparse & Hs & _).
      injection Hparse as <-. congruence.
Qed.

Lemma privateHost_spec host :
  privateHost host = true
  ↔ host = "localhost" ∨ host = "127.0.0.1" ∨
    (∃ rest, host = "192.168." +:+ rest) ∨
    (∃ rest, host = "10." +:+ rest) ∨
    (∃ rest, host = "172." +:+ rest).
Proof.
  unfold privateHost.
  rewrite !orb_true_iff, !String.eqb_eq, !startsWith_spec. tauto.
Qed.

(** C8: with [allowedSchemes = ["http", "https"]], [validateUrl] fails on
    [ftp://example.com], on [https://127.0.0.1/x] and on
    [https://192.168.1.5/x], and returns the parsed object on
    [https://example.com/x]; for an address with an allowed scheme, failure
    is decided by the text of the host name alone: [localhost], [127.0.0.1],
    or a text that starts with [192.168.], [10.] or [172.]. The parsed
    scheme and host of the four addresses are those the platform's parser
    gives. *)
Theorem validateUrl_examples :
  (∀ u, URL_new "ftp://example.com" = Return u → protocol u = "ftp:") →
  (∀ u, URL_new "https://127.0.0.1/x" = Return u → hostname u = "127.0.0.1") →
  (∀ u, URL_new "https://192.168.1.5/x" = Return u → hostname u = "192.168.1.5") →
  URL_new "https://example.com/x" = Return (mkURL "https:" "example.com") →
  throws (validateUrl URL_new "ftp://example.com" defaultSchemes) ∧
  throws (validateUrl URL_new "https://127.0.0.1/x" defaultSchemes) ∧
  throws (validateUrl URL_new "https://192.168.1.5/x" defaultSchemes) ∧
  validateUrl URL_new "https://example.com/x" defaultSchemes
  = Return (mkURL "https:" "example.com") ∧
  (∀ url allowedSchemes parsed,
     URL_new url = Return parsed →
     arrayIncludes allowedSchemes (removeFirst ":" (protocol parsed)) = true →
     (throws (validateUrl URL_new url allowedSchemes)
      ↔ hostname parsed = "localhost" ∨ hostname parsed = "127.0.0.1" ∨
        (∃ rest, hostname parsed = "192.168." +:+ rest) ∨
        (∃ rest, hostname parsed = "10." +:+ rest) ∨
        (∃ rest, hostname parsed = "172." +:+ rest))).
Proof.
  intros Hftp Hloop Hlan Hok.
  split; [|split; [|split; [|split]]].
  - apply validateUrl_throws_iff. unfold validateUrl_try.
    destruct (URL_new "ftp://example.com") as [message|u] eqn:Hparse;
      [by eexists|].
    rewrite (Hftp u eq_refl). simpl. by eexists.
  - apply validateUrl_throws_iff. unfold validateUrl_try.
    destruct (URL_new "https://127.0.0.1/x") as [message|u] eqn:Hparse;
      [by eexists|].
    rewrite (Hloop u eq_refl).
    destruct (negb _); simpl; by eexists.
  - apply validateUrl_throws_iff. unfold validateUrl_try.
    destruct (URL_new "https://192.168.1.5/x") as [message|u] eqn:Hparse;
      [by eexists|].
    rewrite (Hlan u eq_refl).
    destruct (negb _); simpl; by eexists.
  - apply validateUrl_returns. by rewrite Hok.
  - intros url allowedSchemes parsed Hparse Hscheme.
    rewrite validateUrl_throws_iff, <- privateHost_spec.
    unfold validateUrl_try. rewrite Hparse. unfold Return at 1.
    cbv beta iota. rewrite Hscheme. simpl.
    destruct (privateHost (hostname parsed)).
    + split; [done|]. intros _. by eexists.
    + split; [|done]. intros [message Hm]. discriminate Hm.
Qed.

End ValidateUrlClaims.

Section ValidateUrlWitness.
Import JsString Regex InputValidator.

Lemma validateUrl_examples_witness :
  throws (validateUrl URL_simple "ftp://example.com" defaultSchemes) ∧
  throws (validateUrl URL_simple "https://127.0.0.1/x" defaultSchemes) ∧
  throws (validateUrl URL_simple "https://192.168.1.5/x" defaultSchemes) ∧
  validateUrl URL_simple "https://example.com/x" defaultSchemes
  = Return (mkURL "https:" "example.com").
Proof.
  assert (Hftp : ∀ u, URL_simple "ftp://example.com" = Return u →
                      protocol u = "ftp:").
  { intros u Hu. vm_compute in Hu. injection Hu as <-. reflexivity. }
  assert (Hloop : ∀ u, URL_simple "https://127.0.0.1/x" = Return u →
                       hostname u = "127.0.0.1").
  { intros u Hu. vm_compute in Hu. injection Hu as <-. reflexivity. }
  assert (Hlan : ∀ u, URL_simple "https://192.168.1.5/x" = Return u →
                      hostname u = "192.168.1.5").
  { intros u Hu. vm_compute in Hu. injection Hu as <-. reflexivity. }
  destruct (validateUrl_examples URL_simple Hftp Hloop Hlan eq_refl)
    as (H1 & H2 & H3 & H4 & _).
  exact (conj H1 (conj H2 (conj H3 H4))).
Defined.

End ValidateUrlWitness.

Section ConfigClaims.
Import JsString AuditLog RateLimiter ConfigLoader.







End ConfigClaims.

Section AuditLogFacts.
Import AuditLog.

Implicit Types (st : Store) (e : EventInput) (iso : string).

Lemma lastN_all {A} (n : nat) (l : list A) :
  (length l ≤ n)%nat → lastN n l = l.
Proof. intros Hle. unfold lastN. by replace (length l - n)%nat with 0%nat by lia. Qed.

Lemma lastN_length {A} (n : nat) (l : list A) :
  length (lastN n l) = (length l `min` n)%nat.
Proof. unfold lastN. rewrite length_drop. lia. Qed.

Lemma lastN_app_lastN {A} (n : nat) (l k : list A) :
  lastN n (lastN n l ++ k) = lastN n (l ++ k).
Proof.
  destruct (decide (length l ≤ n)%nat) as [Hle|Hgt].
  - by rewrite (lastN_all n l).
  - unfold lastN at 1 3. rewrite !length_app, lastN_length.
    replace (length l `min` n + length k - n)%nat with (length k) by lia.
    replace (length l + length k - n)%nat
      with ((length l - n) + length k)%nat by lia.
    rewrite <- drop_drop. by rewrite (drop_app_le l k) by lia.
Qed.

(** One step of the bounded buffer on plain lists. *)
Lemma push_shift_lastN {A} (l : list A) (x : A) :
  (length l ≤ 1000)%nat →
  (if (1000 <? length (l ++ [x]))%nat then tail (l ++ [x]) else l ++ [x])
  = lastN 1000 (l ++ [x]).
Proof.
  intros Hle. unfold lastN. rewrite length_app. simpl.
  destruct (Nat.ltb_spec 1000 (length l + 1)).
  - replace (length l + 1 - 1000)%nat with 1%nat by lia.
    by destruct (l ++ [x]).
  - by replace (length l + 1 - 1000)%nat with 0%nat by lia.
Qed.

Lemma omap_tail {A B} (f : A → option B) (l : list A) :
  (∀ x, x ∈ l → is_Some (f x)) → omap f (tail l) = tail (omap f l).
Proof.
  destruct l as [|a l]; [done|]. intros Hall. csimpl.
  destruct (Hall a) as [b ->]; [apply list_elem_of_here|done].
Qed.

Lemma omap_ext_in {A B} (f g : A → option B) (l : list A) :
  (∀ x, x ∈ l → f x = g x) → omap f l = omap g l.
Proof.
  induction l as [|a l IH]; [done|]. intros Heq. csimpl.
  rewrite (Heq a) by apply list_elem_of_here.
  rewrite IH; [done|]. intros x Hx. apply Heq. by apply list_elem_of_further.
Qed.

Lemma omap_length_total {A B} (f : A → option B) (l : list A) :
  (∀ x, x ∈ l → is_Some (f x)) → length (omap f l) = length l.
Proof.
  induction l as [|a l IH]; [done|]. intros Hall. csimpl.
  destruct (Hall a) as [b ->]; [apply list_elem_of_here|]. simpl.
  f_equal. apply IH. intros x Hx. apply Hall. by apply list_elem_of_further.
Qed.

Lemma readArray_length st :
  wf st → length (readArray st securityLog) = length (elements st securityLog).
Proof. intros [_ Hobj]. by apply omap_length_total. Qed.

Lemma fresh_object_not_element st :
  wf st → fresh (dom (objects st)) ∉ elements st securityLog.
Proof.
  intros [_ Hobj] Hin. apply Hobj in Hin.
  apply elem_of_dom in Hin. by apply is_fresh in Hin.
Qed.

Lemma elements_logSecurityEvent e iso st :
  elements (logSecurityEvent e iso st) securityLog
  = let pushed := elements st securityLog ++ [fresh (dom (objects st))] in
    if (1000 <? length pushed)%nat then tail pushed else pushed.
Proof. unfold elements at 1. simpl. by rewrite lookup_insert_eq. Qed.

Lemma wf_logSecurityEvent e iso st : wf st → wf (logSecurityEvent e iso st).
Proof.
  intros Hwf. split.
  - simpl. rewrite lookup_insert_eq. eauto.
  - intros o Ho. rewrite elements_logSecurityEvent in Ho. simpl in Ho.
    assert (Ho' : o ∈ elements st securityLog ++ [fresh (dom (objects st))]).
    { destruct (1000 <? _)%nat; [|done].
      destruct (elements st securityLog ++ _); [done|].
      by apply list_elem_of_further. }
    simpl. apply elem_of_app in Ho' as [Hold|Hnew].
    + rewrite lookup_insert_ne; [by apply Hwf|].
      intros <-. by apply (fresh_object_not_element st).
    + apply list_elem_of_singleton in Hnew as ->.
      rewrite lookup_insert_eq. eauto.
Qed.

(** An append puts the new event last and, past the capacity, drops the
    first. *)
Lemma readArray_logSecurityEvent e iso st :
  wf st →
  readArray (logSecurityEvent e iso st) securityLog
  = let pushed := readArray st securityLog ++ [stamp e iso] in
    if (1000 <? length pushed)%nat then tail pushed else pushed.
Proof.
  intros Hwf.
  pose proof (wf_logSecurityEvent e iso st Hwf) as [_ Hobj'].
  unfold readArray at 1. rewrite elements_logSecurityEvent in *.
  cbn zeta in *. rewrite !length_app, (readArray_length st Hwf). simpl length.
  set (o := fresh (dom (objects st))) in *.
  assert (Hpushed :
    omap (λ r, objects (logSecurityEvent e iso st) !! r)
      (elements st securityLog ++ [o])
    = readArray st securityLog ++ [stamp e iso]).
  { rewrite omap_app. simpl. rewrite lookup_insert_eq. f_equal.
    apply omap_ext_in. intros r Hr. apply lookup_insert_ne.
    intros <-. by apply (fresh_object_not_element st). }
  destruct (1000 <? length (elements st securityLog) + 1)%nat eqn:Hfull.
  - rewrite omap_tail; [by rewrite Hpushed|].
    intros r Hr. simpl. apply elem_of_app in Hr as [Hold|Hnew].
    + rewrite lookup_insert_ne; [by apply Hwf|].
      intros <-. by apply (fresh_object_not_element st).
    + apply list_elem_of_singleton in Hnew as ->.
      rewrite lookup_insert_eq. eauto.
  - exact Hpushed.
Qed.

Lemma wf_init : wf store_init.
Proof.
  split.
  - unfold store_init. simpl. rewrite lookup_singleton_eq. eauto.
  - intros o Ho. unfold elements, store_init in Ho. simpl in Ho.
    rewrite lookup_singleton_eq in Ho. by apply elem_of_nil in Ho.
Qed.

Lemma readArray_init : readArray store_init securityLog = [].
Proof.
  unfold readArray, elements, store_init. simpl.
  by rewrite lookup_singleton_eq.
Qed.

Lemma wf_logAll es st : wf st → wf (logAll es st).
Proof.
  revert st. induction es as [|[e iso] es IH]; intros st Hwf; [done|].
  simpl. by apply IH, wf_logSecurityEvent.
Qed.

(** After any appends the buffer holds the last 1000 of everything that
    was ever in it, in order. *)
Lemma readArray_logAll es st :
  wf st → (length (readArray st securityLog) ≤ 1000)%nat →
  readArray (logAll es st) securityLog
  = lastN 1000 (readArray st securityLog ++ stamped es).
Proof.
  revert st. induction es as [|[e iso] es IH]; intros st Hwf Hlen.
  - simpl. rewrite app_nil_r. by rewrite lastN_all.
  - cbn [logAll].
    pose proof (readArray_logSecurityEvent e iso st Hwf) as Hstep.
    cbn zeta in Hstep. rewrite push_shift_lastN in Hstep by done.
    rewrite IH.
    + rewrite Hstep, lastN_app_lastN. unfold stamped. simpl.
      by rewrite <- app_assoc.
    + by apply wf_logSecurityEvent.
    + rewrite Hstep, lastN_length. lia.
Qed.

End AuditLogFacts.

Section AuditLogClaims.
Import AuditLog.

Implicit Types (st : Store) (e : EventInput) (iso : string).

Lemma readArray_writeArray_other a b l st :
  a ≠ b → readArray (writeArray a l st) b = readArray st b.
Proof.
  intros Hne. unfold readArray, elements, writeArray. simpl.
  by rewrite lookup_insert_ne.
Qed.

Lemma getSecurityLog_fresh st :
  wf st → (getSecurityLog st).1 ≠ securityLog.
Proof.
  intros [Hlog _] Heq. simpl in Heq.
  apply elem_of_dom in Hlog. rewrite <- Heq in Hlog.
  by apply is_fresh in Hlog.
Qed.

(** The copy is shallow: the new array holds the same object references as
    the log, so the event objects themselves are shared with the caller. *)
Lemma getSecurityLog_shallow st :
  elements (getSecurityLog st).2 (getSecurityLog st).1
  = elements st securityLog.
Proof. unfold elements at 1. simpl. by rewrite lookup_insert_eq. Qed.

(** C4: after any sequence of [logSecurityEvent] appends the log holds at
    most 1000 entries, namely the last 1000 appended, in insertion order; an
    append to a log of 1000 entries removes exactly the oldest and puts the
    new one last; [getSecurityLog] returns a new array with the current
    contents in that order, and no mutation of the returned array changes
    the log. *)
Theorem audit_log_bounded_fifo :
  (∀ es,
     (length (elements (logAll es store_init) securityLog) ≤ 1000)%nat ∧
     readArray (logAll es store_init) securityLog = lastN 1000 (stamped es)) ∧
  (∀ st e iso,
     wf st → length (readArray st securityLog) = 1000%nat →
     readArray (logSecurityEvent e iso st) securityLog
     = tail (readArray st securityLog) ++ [stamp e iso]) ∧
  (∀ st,
     wf st →
     (getSecurityLog st).1 ≠ securityLog ∧
     readArray (getSecurityLog st).2 (getSecurityLog st).1
     = readArray st securityLog ∧
     ∀ l,
       elements (writeArray (getSecurityLog st).1 l (getSecurityLog st).2)
         securityLog = elements st securityLog ∧
       readArray (writeArray (getSecurityLog st).1 l (getSecurityLog st).2)
         securityLog = readArray st securityLog).
Proof.
  split; [|split].
  - intros es.
    assert (Hread : readArray (logAll es store_init) securityLog
                    = lastN 1000 (stamped es)).
    { rewrite readArray_logAll;
        [by rewrite readArray_init | apply wf_init |
         rewrite readArray_init; simpl; lia]. }
    split; [|done].
    rewrite <- readArray_length by apply wf_logAll, wf_init.
    rewrite Hread, lastN_length. lia.
  - intros st e iso Hwf Hfull.
    rewrite readArray_logSecurityEvent by done. cbn zeta.
    rewrite length_app, Hfull. simpl.
    destruct (readArray st securityLog); [done|]. reflexivity.
  - intros st Hwf.
    pose proof (getSecurityLog_fresh st Hwf) as Hne.
    assert (Hother : ∀ b, b ≠ (getSecurityLog st).1 →
              elements (getSecurityLog st).2 b = elements st b).
    { intros b Hb. unfold elements. simpl. by rewrite lookup_insert_ne. }
    split; [done|]. split.
    + unfold readArray. by rewrite getSecurityLog_shallow.
    + intros l. split.
      * unfold elements at 1. simpl.
        rewrite !lookup_insert_ne by done. done.
      * rewrite readArray_writeArray_other by done.
        unfold readArray. by rewrite Hother.
Qed.

Lemma audit_log_bounded_fifo_witness :
  let e := mkInput "rate_limit_exceeded" "203.0.113.7" [] medium in
  let full := logAll (replicate 1000 (e, "2025-01-01T00:00:00.000Z")) store_init in
  readArray (logSecurityEvent e "2025-01-01T00:00:01.000Z" full) securityLog
  = tail (readArray full securityLog) ++ [stamp e "2025-01-01T00:00:01.000Z"] ∧
  (getSecurityLog full).1 ≠ securityLog.
Proof.
  intros e full.
  assert (Hwf : wf full) by apply wf_logAll, wf_init.
  assert (Hfull : length (readArray full securityLog) = 1000%nat)
    by (unfold full; rewrite readArray_logAll, readArray_init, lastN_length; [reflexivity | apply wf_init | rewrite readArray_init; simpl; lia]).
  destruct audit_log_bounded_fifo as (_ & Hevict & Hcopy).
  split.
  - exact (Hevict full e "2025-01-01T00:00:01.000Z" Hwf Hfull).
  - exact (proj1 (Hcopy full Hwf)).
Defined.

End AuditLogClaims.

Section MiddlewareChainClaims.
Import JsString AuditLog RateLimiter Middleware.

Implicit Types (config : SecurityConfig) (request : FastifyRequest) (w : World).

Lemma cspMiddleware_headers request w :
  securityHeaders (reply (cspMiddleware request w)).
Proof.
  unfold securityHeaders, cspMiddleware. simpl.
  repeat split;
    repeat (rewrite lookup_insert_ne by done); apply lookup_insert_eq.
Qed.

Lemma cspMiddleware_sent request w :
  sent (reply (cspMiddleware request w)) = sent (reply w).
Proof. done. Qed.

(** Request logging touches neither the reply nor the audit log nor the
    rate-limit state. *)
Lemma requestLoggingMiddleware_reply config request w :
  reply (requestLoggingMiddleware config request w) = reply w ∧
  audit (requestLoggingMiddleware config request w) = audit w ∧
  rateLimitMap (requestLoggingMiddleware config request w) = rateLimitMap w.
Proof.
  unfold requestLoggingMiddleware.
  by destruct (enableRequestLogging config).
Qed.

Lemma corsMiddleware_headers config request w :
  securityHeaders (reply w) →
  securityHeaders (reply (corsMiddleware config request w)).
Proof.
  unfold securityHeaders, corsMiddleware. intros Hsec.
  repeat case_match; simpl; try done;
    repeat (rewrite lookup_insert_ne by done); done.
Qed.

Lemma corsMiddleware_rateLimitMap config request w :
  rateLimitMap (corsMiddleware config request w) = rateLimitMap w.
Proof. unfold corsMiddleware. repeat case_match; done. Qed.

Lemma rateLimitMiddleware_headers config request w :
  replyHeaders (reply (rateLimitMiddleware config request w))
  = replyHeaders (reply w).
Proof.
  unfold rateLimitMiddleware.
  destruct (enableRateLimit config); simpl; [|done].
  destruct (checkRateLimit _ _ _ _ _) as [[] m]; done.
Qed.

Lemma authMiddleware_headers config request w :
  replyHeaders (reply (authMiddleware config request w))
  = replyHeaders (reply w).
Proof. unfold authMiddleware. repeat case_match; done. Qed.

Lemma registerSecurityMiddleware_hooks app config :
  onRequestHooks (registerSecurityMiddleware app config).1
  = onRequestHooks app ++ stages config.
Proof.
  unfold registerSecurityMiddleware, addHook, stages. simpl.
  by rewrite <- !app_assoc.
Qed.

(** C5: the hooks are registered, and run, in the order security headers,
    request logging, origin guard, rate limiter, authentication. The first
    two never send the reply; the runner stops after the first stage that
    sends it, so no later stage runs (a request the origin guard rejects
    leaves the rate-limit counters as they were) and the request is not
    dispatched; and the reply carries the security headers whichever stage
    ends the chain. *)
Theorem middleware_chain config request w :
  sent (reply w) = false →
  let app := (registerSecurityMiddleware (mkApp []) config).1 in
  let out := onRequest app request w in
  let w1 := cspMiddleware request w in
  let w2 := requestLoggingMiddleware config request w1 in
  let w3 := corsMiddleware config request w2 in
  let w4 := rateLimitMiddleware config request w3 in
  let w5 := authMiddleware config request w4 in
  onRequestHooks app = stages config ∧
  sent (reply w1) = false ∧ reply w2 = reply w1 ∧ audit w2 = audit w1 ∧
  (sent (reply w3) = true →
     executed out = take 3 (stages config) ∧ final out = w3 ∧
     dispatched out = false ∧ rateLimitMap (final out) = rateLimitMap w) ∧
  (sent (reply w3) = false → sent (reply w4) = true →
     executed out = take 4 (stages config) ∧ final out = w4 ∧
     dispatched out = false) ∧
  (sent (reply w3) = false → sent (reply w4) = false →
     executed out = stages config ∧ final out = w5 ∧
     dispatched out = negb (sent (reply w5))) ∧
  securityHeaders (reply (final out)).
Proof.
  intros Hunsent app out w1 w2 w3 w4 w5.
  assert (Hhooks : onRequestHooks app = stages config)
    by apply registerSecurityMiddleware_hooks.
  destruct (requestLoggingMiddleware_reply config request w1)
    as (Hlog & Hlog_audit & _).
  assert (Hs1 : sent (reply w1) = false) by done.
  assert (Hs2 : sent (reply w2) = false) by (fold w2 in Hlog; by rewrite Hlog).
  assert (Hh3 : securityHeaders (reply w3)).
  { apply corsMiddleware_headers. fold w2 in Hlog. rewrite Hlog.
    apply cspMiddleware_headers. }
  assert (Hh4 : securityHeaders (reply w4)).
  { unfold securityHeaders, w4. by rewrite rateLimitMiddleware_headers. }
  assert (Hh5 : securityHeaders (reply w5)).
  { unfold securityHeaders, w5. by rewrite authMiddleware_headers. }
  assert (Hrun : runHooks (stages config) request w
    = if sent (reply w3) then (take 3 (stages config), w3)
      else if sent (reply w4) then (take 4 (stages config), w4)
      else (stages config, w5)).
  { unfold stages. cbn [runHooks take]. rewrite Hunsent.
    fold w1. rewrite Hs1. fold w2. rewrite Hs2. fold w3.
    destruct (sent (reply w3)) eqn:Hs3; [done|].
    fold w4. destruct (sent (reply w4)) eqn:Hs4; [done|].
    fold w5. by destruct (sent (reply w5)). }
  unfold out, onRequest. rewrite Hhooks, Hrun.
  split; [done|]. split; [done|]. split; [done|]. split; [done|].
  destruct (sent (reply w3)) eqn:Hs3; [|destruct (sent (reply w4)) eqn:Hs4];
    simpl.
  - split; [intros _; rewrite Hs3; repeat split; try done|].
    + unfold w3, w2. rewrite corsMiddleware_rateLimitMap.
      by destruct (requestLoggingMiddleware_reply config request w1)
        as (_ & _ & ->).
    + split; [discriminate|]. split; [discriminate|]. exact Hh3.
  - split; [discriminate|].
    split; [intros _ _; by rewrite Hs4|]. split; [discriminate|]. exact Hh4.
  - split; [discriminate|]. split; [discriminate|].
    split; [done|]. exact Hh5.
Qed.

Lemma middleware_chain_witness :
  (let out := onRequest (registerSecurityMiddleware (mkApp []) authConfig).1
                (get "/mcp" []) epoch in
   executed out = stages authConfig ∧ dispatched out = false ∧
   securityHeaders (reply (final out))) ∧
  (let out := onRequest (registerSecurityMiddleware (mkApp []) originConfig).1
                (get "/mcp" [("origin", "https://evil.com")]) epoch in
   executed out = take 3 (stages originConfig) ∧ dispatched out = false ∧
   securityHeaders (reply (final out))).
Proof.
  split.
  - destruct (middleware_chain authConfig (get "/mcp" []) epoch eq_refl)
      as (_ & _ & _ & _ & _ & _ & Hlast & Hheaders).
    destruct (Hlast eq_refl eq_refl) as (Hran & _ & Hdispatch).
    exact (conj Hran (conj Hdispatch Hheaders)).
  - destruct (middleware_chain originConfig
                (get "/mcp" [("origin", "https://evil.com")]) epoch eq_refl)
      as (_ & _ & _ & _ & Hcors & _ & _ & Hheaders).
    destruct (Hcors eq_refl) as (Hran & _ & Hdispatch & _).
    exact (conj Hran (conj Hdispatch Hheaders)).
Defined.

End MiddlewareChainClaims.

(** * Further properties of the rate limiter *)

Section RateLimiterSweep.
Import RateLimiter.

Implicit Types (m : gmap string RateLimitEntry) (identifier : string).

Lemma cleanupRateLimit_lookup now m identifier :
  cleanupRateLimit now m !! identifier
  = match m !! identifier with
    | Some c => if resetTime c <? now then None else Some c
    | None => None
    end.
Proof.
  destruct (m !! identifier) as [c|] eqn:Hm.
  - destruct (Z.ltb_spec (resetTime c) now).
    + by apply (cleanupRateLimit_expired m identifier now c).
    + by apply (cleanupRateLimit_live m identifier now c).
  - unfold cleanupRateLimit. apply map_lookup_filter_None. by left.
Qed.

(** X1: the sweep removes exactly the entries whose window is over, and a
    sweep at [now] is invisible to every later call: [checkRateLimit] at
    [now' ≥ now] gives the same answer, and leaves the same entry for its
    identifier, with or without the sweep. *)
Theorem cleanupRateLimit_transparent now now' m identifier N windowMs :
  now ≤ now' →
  (∀ other,
     cleanupRateLimit now m !! other
     = match m !! other with
       | Some c => if resetTime c <? now then None else Some c
       | None => None
       end) ∧
  (checkRateLimit now' identifier N windowMs (cleanupRateLimit now m)).1
  = (checkRateLimit now' identifier N windowMs m).1 ∧
  (checkRateLimit now' identifier N windowMs (cleanupRateLimit now m)).2
    !! identifier
  = (checkRateLimit now' identifier N windowMs m).2 !! identifier.
Proof.
  intros Hle. split; [intros other; apply cleanupRateLimit_lookup|].
  unfold checkRateLimit. rewrite cleanupRateLimit_lookup.
  destruct (m !! identifier) as [c|] eqn:Hm.
  - destruct (Z.ltb_spec (resetTime c) now) as [Hexp|Hlive].
    + rewrite (proj2 (Z.ltb_lt (resetTime c) now')) by lia. simpl.
      by rewrite !lookup_insert_eq.
    + destruct (resetTime c <? now'); simpl; [by rewrite !lookup_insert_eq|].
      destruct (N <=? count c); simpl.
      * by rewrite cleanupRateLimit_lookup, Hm, (proj2 (Z.ltb_ge _ _)) by lia.
      * by rewrite !lookup_insert_eq.
  - simpl. by rewrite !lookup_insert_eq.
Qed.

Lemma cleanupRateLimit_transparent_witness :
  (checkRateLimit 2000 "client" 5 60000
     (cleanupRateLimit 1000 {["client" := mkEntry 3 500]})).1
  = (checkRateLimit 2000 "client" 5 60000 {["client" := mkEntry 3 500]}).1.
Proof.
  refine (proj1 (proj2 (cleanupRateLimit_transparent 1000 2000
                          {["client" := mkEntry 3 500]} "client" 5 60000 _))).
  lia.
Defined.

(** X2: the counters of different identifiers do not interact: two calls
    for different identifiers give the same answers and the same final map
    in either order, whatever their limits, windows and clock values. *)
Theorem checkRateLimit_independent m id1 id2 t1 t2 N1 N2 w1 w2 :
  id1 ≠ id2 →
  let first := checkRateLimit t1 id1 N1 w1 m in
  let second := checkRateLimit t2 id2 N2 w2 first.2 in
  let second' := checkRateLimit t2 id2 N2 w2 m in
  let first' := checkRateLimit t1 id1 N1 w1 second'.2 in
  first.1 = first'.1 ∧ second.1 = second'.1 ∧ second.2 = first'.2.
Proof.
  intros Hne first second second' first'.
  subst first second second' first'. unfold checkRateLimit.
  destruct (m !! id1) as [c1|] eqn:H1; destruct (m !! id2) as [c2|] eqn:H2;
    repeat (case_match; simpl in *; simplify_map_eq; try done);
    repeat split; try done; by apply insert_insert_ne.
Qed.

Lemma checkRateLimit_independent_witness :
  (checkRateLimit 1 "tool:hello_world" 50 60000
     (checkRateLimit 0 "203.0.113.7" 100 60000 rateLimitMap_init).2).2
  = (checkRateLimit 0 "203.0.113.7" 100 60000
       (checkRateLimit 1 "tool:hello_world" 50 60000 rateLimitMap_init).2).2.
Proof.
  refine (proj2 (proj2 (checkRateLimit_independent rateLimitMap_init
                          "203.0.113.7" "tool:hello_world" 0 1 100 50
                          60000 60000 _))).
  discriminate.
Defined.

Lemma calls_in_window identifier N windowMs ts : ∀ m c r,
  m !! identifier = Some (mkEntry c r) →
  Forall (λ t, t ≤ r) ts →
  (calls identifier N windowMs ts m).1
  = replicate (length ts `min` Z.to_nat (N - c)) true
    ++ replicate (length ts - length ts `min` Z.to_nat (N - c)) false.
Proof.
  induction ts as [|t ts IH]; intros m c r Hm Hts; [done|].
  inversion Hts as [|? ? Ht Hts']; subst. cbn [calls].
  destruct (Z.lt_ge_cases c N) as [Hlt|Hge].
  - rewrite (checkRateLimit_admit m identifier t N windowMs c r) by done.
    pose proof (IH (<[identifier := mkEntry (c + 1) r]> m) (c + 1) r
                  (lookup_insert_eq _ _ _) Hts') as Hrest.
    destruct (calls identifier N windowMs ts _) as [bs m2]. cbn [fst] in *.
    rewrite Hrest.
    replace (Z.to_nat (N - c)) with (S (Z.to_nat (N - (c + 1)))) by lia.
    cbn [length]. by rewrite <- Nat.succ_min_distr.
  - rewrite (checkRateLimit_deny m identifier t N windowMs c r) by done.
    pose proof (IH m c r Hm Hts') as Hrest.
    destruct (calls identifier N windowMs ts m) as [bs m2]. cbn [fst] in *.
    rewrite Hrest.
    replace (Z.to_nat (N - c)) with 0%nat by lia.
    rewrite !Nat.min_0_r. simpl. by rewrite Nat.sub_0_r.
Qed.

(** X3: for every limit [N] (zero and negative included) and any number
    of calls inside one window that starts with no live entry, the first
    call is admitted, then as many further calls as fit under the limit
    ([N - 1], at least none), and every call after that is denied: a window
    never admits more than [max N 1] calls. *)
Theorem calls_admitted_count identifier N windowMs m t0 ts :
  no_live_entry m identifier t0 →
  Forall (λ t, t ≤ t0 + windowMs) ts →
  let k := (length ts `min` Z.to_nat (N - 1))%nat in
  (calls identifier N windowMs (t0 :: ts) m).1
  = true :: replicate k true ++ replicate (length ts - k) false.
Proof.
  intros Hfresh Hts k. cbn [calls].
  rewrite checkRateLimit_fresh by done.
  pose proof (calls_in_window identifier N windowMs ts
                (<[identifier := mkEntry 1 (t0 + windowMs)]> m) 1
                (t0 + windowMs) (lookup_insert_eq _ _ _) Hts) as Hrest.
  destruct (calls identifier N windowMs ts _) as [bs m2]. cbn [fst] in *.
  by rewrite Hrest.
Qed.

Lemma calls_admitted_count_witness :
  (calls "client" 2 60000 [0; 10; 20; 30] rateLimitMap_init).1
  = [true; true; false; false].
Proof.
  apply (calls_admitted_count "client" 2 60000 rateLimitMap_init 0 [10; 20; 30]).
  - exact I.
  - repeat constructor; lia.
Defined.



End RateLimiterSweep.

(** * Further properties of the input validators *)

Section TrimFacts.
Import JsString Observations.

Lemma trimStart_clean s : startsClean (trimStart s).
Proof.
  induction s as [|a s IH]; simpl; [done|].
  by destruct (isWhiteSpace a) eqn:Ha.
Qed.

Lemma trimStart_id s : startsClean s → trimStart s = s.
Proof. destruct s as [|a s]; simpl; [done|]. by intros ->. Qed.

Lemma trimEnd_clean s : startsClean s → startsClean (trimEnd s).
Proof.
  destruct s as [|a s]; simpl; [done|]. intros Ha.
  destruct (trimEnd s); simpl; [by rewrite Ha|done].
Qed.

Lemma trimEnd_idem s : trimEnd (trimEnd s) = trimEnd s.
Proof.
  induction s as [|a s IH]; simpl; [done|].
  destruct (trimEnd s) as [|b t] eqn:Ht.
  - destruct (isWhiteSpace a) eqn:Ha; simpl; [done|]. by rewrite Ha.
  - change (trimEnd (String a (String b t)))
      with (match trimEnd (String b t) with
            | EmptyString =>
                if isWhiteSpace a then EmptyString else String a EmptyString
            | String c u => String a (String c u)
            end).
    by rewrite IH.
Qed.

Lemma trim_idem s : trim (trim s) = trim s.
Proof.
  unfold trim.
  rewrite (trimStart_id (trimEnd (trimStart s)))
    by apply trimEnd_clean, trimStart_clean.
  apply trimEnd_idem.
Qed.

Lemma allChars_trimStart member s :
  allChars member s = true → allChars member (trimStart s) = true.
Proof.
  induction s as [|a s IH]; simpl; [done|].
  intros [Ha Hs]%andb_true_iff.
  destruct (isWhiteSpace a); [by apply IH|]. simpl. by rewrite Ha, Hs.
Qed.

Lemma allChars_trimEnd member s :
  allChars member s = true → allChars member (trimEnd s) = true.
Proof.
  induction s as [|a s IH]; simpl; [done|].
  intros [Ha Hs]%andb_true_iff. specialize (IH Hs).
  destruct (trimEnd s) as [|b t].
  - destruct (isWhiteSpace a); simpl; [done|]. by rewrite Ha.
  - simpl in *. by rewrite Ha, IH.
Qed.

Lemma allChars_keep member s : allChars member (keep member s) = true.
Proof.
  induction s as [|a s IH]; simpl; [done|].
  destruct (member a) eqn:Ha; [|done]. simpl. by rewrite Ha, IH.
Qed.

Lemma length_trimStart s : (String.length (trimStart s) ≤ String.length s)%nat.
Proof.
  induction s as [|a s IH]; simpl; [done|].
  destruct (isWhiteSpace a); simpl; lia.
Qed.

Lemma length_trimEnd s : (String.length (trimEnd s) ≤ String.length s)%nat.
Proof.
  induction s as [|a s IH]; simpl; [done|].
  destruct (trimEnd s) as [|b t]; [destruct (isWhiteSpace a)|]; simpl in *; lia.
Qed.

Lemma length_keep member s :
  (String.length (keep member s) ≤ String.length s)%nat.
Proof.
  induction s as [|a s IH]; simpl; [done|].
  destruct (member a); simpl; lia.
Qed.

End TrimFacts.

Section SanitizerState.
Import JsString Regex InputValidator ToolServer.

(** A reported match is a real one, whatever [lastIndex] was. *)
Lemma test_sound re input :
  (test re input).1 = true → matchesSomewhere re input.
Proof.
  unfold test, exec.
  destruct (String.length input <? _)%nat eqn:Hlen; [done|].
  apply Nat.ltb_ge in Hlen.
  destruct (search _ _ _ _ _) as [e|] eqn:Hsearch; [|done].
  intros _. apply search_sound in Hsearch as (j & Hj & Hmatch).
  exists j. split; [lia|done].
Qed.

Lemma test_false_resets re input :
  global re = true → (test re input).1 = false →
  (test re input).2 = setLastIndex re 0.
Proof.
  intros Hg. unfold test. destruct (exec re input); [done|].
  by rewrite Hg.
Qed.

Lemma anyTest_sound ps input :
  (anyTest ps input).1 = true →
  ∃ re, re ∈ ps ∧ matchesSomewhere re input.
Proof.
  induction ps as [|p ps IH]; simpl; [done|].
  destruct (test p input) as [matched p'] eqn:Htest.
  destruct matched.
  - intros _. exists p. split; [apply list_elem_of_here|].
    apply test_sound. by rewrite Htest.
  - destruct (anyTest ps input) as [matched' ps']. simpl.
    intros Hm. destruct (IH Hm) as (re & Hin & Hre).
    exists re. split; [by apply list_elem_of_further|done].
Qed.

Lemma anyTest_false_resets ps input :
  Forall (λ re, global re = true) ps →
  (anyTest ps input).1 = false →
  (anyTest ps input).2 = (λ re, setLastIndex re 0) <$> ps.
Proof.
  induction ps as [|p ps IH]; intros Hg; simpl; [done|].
  inversion Hg as [|? ? Hp Hps]; subst.
  pose proof (test_false_resets p input Hp) as Hreset.
  destruct (test p input) as [matched p'] eqn:Htest.
  destruct matched; [done|]. simpl in Hreset.
  specialize (IH Hps).
  destruct (anyTest ps input) as [matched' ps']. simpl in *.
  intros ->. by rewrite Hreset, IH.
Qed.

Lemma patternState_global ps :
  patternState ps → Forall (λ re, global re = true) ps.
Proof.
  unfold patternState. intros Hps.
  assert (Hall : Forall (λ re, global re = true)
                   ((λ re, setLastIndex re 0) <$> ps)).
  { rewrite Hps. unfold DANGEROUS_PATTERNS. repeat constructor. }
  apply Forall_fmap in Hall. eapply Forall_impl; [exact Hall|]. done.
Qed.

Lemma patternState_elem ps re :
  patternState ps → re ∈ ps → setLastIndex re 0 ∈ DANGEROUS_PATTERNS.
Proof.
  unfold patternState. intros <- Hin.
  apply list_elem_of_fmap. by exists re.
Qed.

Lemma sanitizeInput_returned input maxLength ps out ps' :
  sanitizeInput input maxLength ps = (Return out, ps') →
  Z.of_nat (String.length input) ≤ maxLength ∧
  (String.length out ≤ String.length input)%nat ∧
  allChars keptChar out = true ∧
  trim out = out.
Proof.
  unfold sanitizeInput.
  destruct (Z.ltb_spec maxLength (Z.of_nat (String.length input)));
    [discriminate|].
  destruct (anyTest ps input) as [[] ps1]; [discriminate|].
  intros Heq. injection Heq as <- <-.
  split; [done|]. split; [|split].
  - unfold trim.
    pose proof (length_trimEnd (trimStart (keep keptChar input))).
    pose proof (length_trimStart (keep keptChar input)).
    pose proof (length_keep keptChar input). lia.
  - apply allChars_trimEnd, allChars_trimStart, allChars_keep.
  - apply trim_idem.
Qed.

Lemma sanitizeInput_return_resets input maxLength ps out ps' :
  patternState ps →
  sanitizeInput input maxLength ps = (Return out, ps') →
  ps' = DANGEROUS_PATTERNS.
Proof.
  intros Hps. unfold sanitizeInput.
  destruct (Z.ltb_spec maxLength (Z.of_nat (String.length input)));
    [discriminate|].
  pose proof (anyTest_false_resets ps input (patternState_global ps Hps))
    as Hreset.
  destruct (anyTest ps input) as [[] ps1]; [discriminate|].
  intros Heq. injection Heq as _ <-. simpl in Hreset.
  rewrite Hreset by done. exact Hps.
Qed.

Lemma sanitizeInput_throw_cause input maxLength ps message ps' :
  patternState ps →
  sanitizeInput input maxLength ps = (Throw message, ps') →
  maxLength < Z.of_nat (String.length input) ∨
  ∃ re, re ∈ DANGEROUS_PATTERNS ∧ matchesSomewhere re input.
Proof.
  intros Hps. unfold sanitizeInput.
  destruct (Z.ltb_spec maxLength (Z.of_nat (String.length input)));
    [by left|].
  destruct (anyTest ps input) as [[] ps1] eqn:Hany; [|discriminate].
  intros _. right.
  destruct (anyTest_sound ps input) as (re & Hin & Hre);
    [by rewrite Hany|].
  exists (setLastIndex re 0). split; [by apply (patternState_elem ps)|done].
Qed.

(** X5: the length guard comes first and touches nothing: an input longer
    than [maxLength] is refused whatever it contains and whatever state the
    pattern objects are in, and their state is left as it was. Whenever
    [sanitizeInput] returns, the value is no longer than the input, consists
    only of characters of [[\w\s.-]], and has no white space at either
    end. *)
Theorem sanitizeInput_output input maxLength ps :
  (maxLength < Z.of_nat (String.length input) →
     sanitizeInput input maxLength ps
     = (Throw ("Input too long. Maximum length: " +:+ pretty maxLength), ps)) ∧
  (∀ out ps',
     sanitizeInput input maxLength ps = (Return out, ps') →
     Z.of_nat (String.length input) ≤ maxLength ∧
     (String.length out ≤ String.length input)%nat ∧
     allChars keptChar out = true ∧
     trim out = out).
Proof.
  split.
  - intros Hlong. unfold sanitizeInput.
    by rewrite (proj2 (Z.ltb_lt _ _) Hlong).
  - intros out ps'. apply sanitizeInput_returned.
Qed.

Lemma sanitizeInput_output_witness :
  sanitizeInput "rm -rf /; cat /etc/passwd" 10 DANGEROUS_PATTERNS
  = (Throw "Input too long. Maximum length: 10", DANGEROUS_PATTERNS) ∧
  (Z.of_nat (String.length "  Hello, World!  ") ≤ 50 ∧
   (String.length "Hello World" ≤ String.length "  Hello, World!  ")%nat ∧
   allChars keptChar "Hello World" = true ∧
   trim "Hello World" = "Hello World").
Proof.
  split.
  - apply (sanitizeInput_output "rm -rf /; cat /etc/passwd" 10
             DANGEROUS_PATTERNS).
    simpl. lia.
  - apply (proj2 (sanitizeInput_output "  Hello, World!  " 50
                    DANGEROUS_PATTERNS) "Hello World" DANGEROUS_PATTERNS).
    reflexivity.
Defined.

(** X6: in every state the pattern objects can be in, a refusal has a
    cause (the input is too long, or one of the five patterns does match it
    somewhere), and a call that returns leaves every pattern object as it
    was at load time, [lastIndex] 0. *)
Theorem sanitizeInput_sound_and_reset input maxLength ps :
  patternState ps →
  (∀ message ps',
     sanitizeInput input maxLength ps = (Throw message, ps') →
     maxLength < Z.of_nat (String.length input) ∨
     ∃ re, re ∈ DANGEROUS_PATTERNS ∧ matchesSomewhere re input) ∧
  (∀ out ps',
     sanitizeInput input maxLength ps = (Return out, ps') →
     ps' = DANGEROUS_PATTERNS).
Proof.
  intros Hps. split.
  - intros message ps'. by apply sanitizeInput_throw_cause.
  - intros out ps'. by apply sanitizeInput_return_resets.
Qed.

Lemma sanitizeInput_sound_and_reset_witness :
  (sanitizeInput "a;" 50 (sanitizeInput "a;" 50 DANGEROUS_PATTERNS).2).2
  = DANGEROUS_PATTERNS.
Proof.
  refine (proj2 (sanitizeInput_sound_and_reset "a;" 50
                   (sanitizeInput "a;" 50 DANGEROUS_PATTERNS).2 _) "a" _ _);
    reflexivity.
Defined.

(** X7: of two successive calls of [sanitizeInput] on the same input, one
    that has a match of a denylisted pattern and is within the length limit,
    at least one throws, from every state the pattern objects can be in: a
    dangerous input gets through at most every other time. *)
Theorem sanitizeInput_never_twice input maxLength ps re :
  patternState ps →
  Z.of_nat (String.length input) ≤ maxLength →
  re ∈ DANGEROUS_PATTERNS → matchesSomewhere re input →
  throws (sanitizeInput input maxLength ps).1 ∨
  throws (sanitizeInput input maxLength
            (sanitizeInput input maxLength ps).2).1.
Proof.
  intros Hps Hlen Hin Hmatch.
  destruct (sanitizeInput input maxLength ps) as [[message|out] ps'] eqn:Hfirst.
  - left. by eexists.
  - right. simpl.
    rewrite (sanitizeInput_return_resets input maxLength ps out ps' Hps Hfirst).
    by apply (sanitizeInput_fresh_rejects input maxLength re).
Qed.

Lemma sanitizeInput_never_twice_witness :
  throws (sanitizeInput "a;" 50
            (sanitizeInput "a;" 50 DANGEROUS_PATTERNS).2).1 ∨
  throws (sanitizeInput "a;" 50
            (sanitizeInput "a;" 50
               (sanitizeInput "a;" 50 DANGEROUS_PATTERNS).2).2).1.
Proof.
  apply (sanitizeInput_never_twice "a;" 50
           (sanitizeInput "a;" 50 DANGEROUS_PATTERNS).2
           (global_re (Class (ones ";&|`$(){}[]\")) false)).
  - reflexivity.
  - simpl. lia.
  - apply list_elem_of_here.
  - exists 1%nat. split; [simpl; lia|discriminate].
Defined.

(** X8: on pattern objects as created at load time the denylist is exact:
    [sanitizeInput] returns, with the input stripped to [[\w\s.-]] and
    trimmed, exactly when the input is within the length limit and none of
    the five patterns matches it anywhere. *)
Theorem sanitizeInput_fresh_iff input maxLength :
  (sanitizeInput input maxLength DANGEROUS_PATTERNS).1
  = Return (trim (keep keptChar input))
  ↔ Z.of_nat (String.length input) ≤ maxLength ∧
    ∀ re, re ∈ DANGEROUS_PATTERNS → ¬ matchesSomewhere re input.
Proof.
  split.
  - intros Hret.
    assert (Hlen : Z.of_nat (String.length input) ≤ maxLength).
    { destruct (Z.le_gt_cases (Z.of_nat (String.length input)) maxLength)
        as [|Hlong]; [done|].
      unfold sanitizeInput in Hret.
      rewrite (proj2 (Z.ltb_lt _ _)) in Hret by lia. discriminate Hret. }
    split; [done|]. intros re Hin Hmatch.
    destruct (sanitizeInput_fresh_rejects input maxLength re Hlen Hin Hmatch)
      as [message Hthrow].
    rewrite Hthrow in Hret. discriminate Hret.
  - intros [Hlen Hnone]. unfold sanitizeInput.
    destruct (Z.ltb_spec maxLength (Z.of_nat (String.length input))); [lia|].
    destruct (anyTest DANGEROUS_PATTERNS input) as [[] ps1] eqn:Hany; [|done].
    destruct (anyTest_sound DANGEROUS_PATTERNS input) as (re & Hin & Hre);
      [by rewrite Hany|].
    by destruct (Hnone re Hin).
Qed.

Lemma sanitizeInput_fresh_iff_witness :
  Z.of_nat (String.length "Ada Lovelace") ≤ 50 ∧
  ∀ re, re ∈ DANGEROUS_PATTERNS → ¬ matchesSomewhere re "Ada Lovelace".
Proof.
  apply (proj1 (sanitizeInput_fresh_iff "Ada Lovelace" 50)). reflexivity.
Defined.

(** X9: stripping can produce what the denylist refuses. For every
    character [c] that is neither kept nor a shell metacharacter nor an
    angle bracket (such as [@], [#], [%], [!], [*]), the input [r c m]
    passes the denylist and is returned as [rm], a text that
    [sanitizeInput] itself refuses: a returned value is not always free of
    denylisted keywords. *)
Theorem sanitizeInput_makes_keyword (c : ascii) :
  keptChar c = false →
  classMember (ones ";&|`$(){}[]\") c = false →
  classMember (ones "<>") c = false →
  sanitizeInput (String "r" (String c "m")) 50 DANGEROUS_PATTERNS
  = (Return "rm", DANGEROUS_PATTERNS) ∧
  throws (sanitizeInput "rm" 50 DANGEROUS_PATTERNS).1.
Proof.
  intros Hkept Hshell Hangle. split; [|by eexists].
  destruct c as [[] [] [] [] [] [] [] []];
    try discriminate Hkept; try discriminate Hshell; try discriminate Hangle;
    vm_compute; reflexivity.
Qed.

Lemma sanitizeInput_makes_keyword_witness :
  sanitizeInput "r@m" 50 DANGEROUS_PATTERNS
  = (Return "rm", DANGEROUS_PATTERNS) ∧
  throws (sanitizeInput "rm" 50 DANGEROUS_PATTERNS).1.
Proof.
  apply (sanitizeInput_makes_keyword "@"); reflexivity.
Defined.

End SanitizerState.

Section PathAndUrl.
Import JsString Regex InputValidator.






(** X11: the private-network test knows the loopback range by two names
    only: a URL with an allowed scheme whose host is any [127.x] text other
    than [127.0.0.1] is accepted and its parsed object returned. *)
Theorem validateUrl_loopback_range URL_new url allowedSchemes parsed rest :
  URL_new url = Return parsed →
  arrayIncludes allowedSchemes (removeFirst ":" (protocol parsed)) = true →
  hostname parsed = "127." +:+ rest →
  rest ≠ "0.0.1" →
  validateUrl URL_new url allowedSchemes = Return parsed.
Proof.
  intros Hparse Hscheme Hhost Hrest.
  apply validateUrl_returns. split; [done|]. split; [done|].
  rewrite Hhost. unfold privateHost. simpl.
  rewrite ?orb_false_r. change ("" +:+ rest) with rest.
  by apply String.eqb_neq.
Qed.

Lemma validateUrl_loopback_range_witness :
  validateUrl URL_simple "http://127.0.0.2/admin" defaultSchemes
  = Return (mkURL "http:" "127.0.0.2").
Proof.
  apply (validateUrl_loopback_range URL_simple "http://127.0.0.2/admin"
           defaultSchemes (mkURL "http:" "127.0.0.2") "0.0.2").
  - reflexivity.
  - reflexivity.
  - reflexivity.
  - discriminate.
Defined.

End PathAndUrl.

(** * Further properties of the startup configuration *)

Section ConfigChecks.
Import JsString ConfigLoader RequestSequence.

Lemma filter_nonEmpty_Forall (xs : list string) :
  Forall (λ o, o ≠ "") (filter (λ s, nonEmpty s = true) xs).
Proof.
  apply Forall_forall. intros o Ho.
  apply list_elem_of_filter in Ho as [Ho _].
  unfold nonEmpty in Ho. by apply negb_true_iff, String.eqb_neq in Ho.
Qed.

(** X12: every configuration [createConfig] returns has passed its
    checks: [nodeEnv] is one of the three environments, [logLevel] one of
    the six levels, the port lies in 1..65535, and no trusted origin is the
    empty string; version and name are those of the package. *)
Theorem createConfig_valid Number env v n config :
  createConfig Number env v n = Return config →
  nodeEnv config ∈ ["development"; "production"; "test"] ∧
  logLevel config ∈ validLogLevels ∧
  1 ≤ port config ≤ 65535 ∧
  Forall (λ o, o ≠ "") (trustedOrigins config) ∧
  version config = v ∧ name config = n.
Proof.
  unfold createConfig. intros Hret.
  destruct (negb (bool_decide (getEnvVar env "NODE_ENV" "development" ∈ _)))
    eqn:Henv; [discriminate|].
  destruct (getEnvNumber Number env "PORT" 8080) as [|p]; [discriminate|].
  destruct (getEnvNumber Number env "MAX_REQUESTS_PER_MINUTE" 100) as [|mx];
    [discriminate|].
  cbn [logLevel] in Hret.
  destruct (negb (bool_decide (_ ∈ validLogLevels))) eqn:Hlevel; [discriminate|].
  destruct ((p <? 1) || (65535 <? p)) eqn:Hport; [discriminate|].
  injection Hret as <-. cbn.
  apply negb_false_iff, bool_decide_eq_true in Henv, Hlevel.
  apply orb_false_iff in Hport as [H1 H2].
  apply Z.ltb_ge in H1, H2.
  repeat split; try done. apply filter_nonEmpty_Forall.
Qed.

Lemma createConfig_valid_witness :
  ∃ config,
    createConfig Number_decimal authOnlyEnv "1.0.0" "server" = Return config ∧
    1 ≤ port config ≤ 65535 ∧ logLevel config ∈ validLogLevels.
Proof.
  eexists. split; [vm_compute; reflexivity|].
  destruct (createConfig_valid Number_decimal authOnlyEnv "1.0.0" "server"
              _ eq_refl) as (_ & Hlevel & Hport & _).
  exact (conj Hport Hlevel).
Defined.

(** X13: a numeric variable that is set to a text [Number] cannot read
    stops the construction with a message that names the variable and the
    text: [PORT] first, then [MAX_REQUESTS_PER_MINUTE]. *)
Theorem createConfig_not_a_number Number env v n text :
  getEnvVar env "NODE_ENV" "development" ∈ ["development"; "production"; "test"] →
  Number text = None →
  (env !! "PORT" = Some text →
     createConfig Number env v n
     = Throw ("Environment variable PORT must be a number, got: " +:+ text)) ∧
  (env !! "PORT" = None →
   env !! "MAX_REQUESTS_PER_MINUTE" = Some text →
     createConfig Number env v n
     = Throw ("Environment variable MAX_REQUESTS_PER_MINUTE must be a number, got: "
              +:+ text)).
Proof.
  intros Henv Hnan. unfold createConfig, getEnvNumber.
  rewrite bool_decide_eq_true_2 by done. cbn [negb].
  split.
  - intros ->. by rewrite Hnan.
  - intros -> ->. by rewrite Hnan.
Qed.

Lemma createConfig_not_a_number_witness :
  createConfig Number_decimal SampleEnv.portInWords "1.0.0" "server"
  = Throw "Environment variable PORT must be a number, got: eighty".
Proof.
  refine (proj1 (createConfig_not_a_number Number_decimal
                   SampleEnv.portInWords "1.0.0" "server" "eighty" _ _) _).
  - vm_compute. set_solver.
  - reflexivity.
  - reflexivity.
Defined.

(** X14: the switches are read as exact text. Authentication is on only
    when [ENABLE_AUTH] is the text [true]; rate limiting and request logging
    are on when their variable is unset or is the text [true], and any other
    text (such as [TRUE] or [1]) turns them off. *)
Theorem createConfig_flags Number env v n config :
  createConfig Number env v n = Return config →
  (enableAuth config = true ↔ env !! "ENABLE_AUTH" = Some "true") ∧
  (enableRateLimit config = true
   ↔ env !! "ENABLE_RATE_LIMIT" = None ∨ env !! "ENABLE_RATE_LIMIT" = Some "true") ∧
  (enableRequestLogging config = true
   ↔ env !! "ENABLE_REQUEST_LOGGING" = None
     ∨ env !! "ENABLE_REQUEST_LOGGING" = Some "true").
Proof.
  unfold createConfig. intros Hret.
  repeat case_match; try discriminate Hret.
  all: injection Hret as <-; cbn; unfold getEnvVar.
  all: destruct (env !! "ENABLE_AUTH") as [a|];
       destruct (env !! "ENABLE_RATE_LIMIT") as [r|];
       destruct (env !! "ENABLE_REQUEST_LOGGING") as [l|]; simpl;
       rewrite ?String.eqb_eq; repeat split; intros; try done;
       try (left; done); try (right; congruence); try congruence;
       try (destruct_or!; congruence).
Qed.

Lemma createConfig_flags_witness :
  ∃ config,
    createConfig Number_decimal SampleEnv.rateLimitUpperCase
      "1.0.0" "server" = Return config ∧
    enableRateLimit config ≠ true.
Proof.
  eexists. split; [vm_compute; reflexivity|].
  destruct (createConfig_flags Number_decimal SampleEnv.rateLimitUpperCase
              "1.0.0" "server" _ eq_refl) as (_ & Hrate & _).
  intros Hon. apply Hrate in Hon as [Hunset|Htrue].
  - vm_compute in Hunset. discriminate Hunset.
  - vm_compute in Htrue. discriminate Htrue.
Defined.

(** X15: an environment that sets none of the twelve variables gives the
    default configuration: port 8080, host [localhost], [development],
    level [debug], endpoints [/mcp] and [/health], authentication off with
    no key, rate limiting on at 100 per minute, request logging on, no
    trusted origins. *)
Theorem createConfig_defaults Number env v n :
  Forall (λ key, env !! key = None)
    ["NODE_ENV"; "PORT"; "HOST"; "LOG_LEVEL"; "MCP_ENDPOINT";
     "HEALTH_ENDPOINT"; "ENABLE_AUTH"; "API_KEY"; "ENABLE_RATE_LIMIT";
     "MAX_REQUESTS_PER_MINUTE"; "ENABLE_REQUEST_LOGGING"; "TRUSTED_ORIGINS"] →
  createConfig Number env v n
  = Return (mkConfig 8080 "localhost" "development" "debug" "/mcp" "/health"
              v n false None true 100 true []).
Proof.
  intros Hunset. unfold createConfig, getEnvNumber, getEnvVar.
  repeat (apply Forall_cons in Hunset as [-> Hunset]).
  reflexivity.
Qed.

Lemma createConfig_defaults_witness :
  createConfig Number_decimal SampleEnv.unrelated "1.0.0" "server"
  = Return (mkConfig 8080 "localhost" "development" "debug" "/mcp" "/health"
              "1.0.0" "server" false None true 100 true []).
Proof.
  apply createConfig_defaults. repeat constructor.
Defined.

Lemma splitComma_commaFree x :
  commaFree x = true → splitComma x = [x].
Proof.
  induction x as [|a x IH]; simpl; [done|].
  intros [Ha Hx]%andb_true_iff. apply negb_true_iff in Ha.
  by rewrite Ha, IH.
Qed.

Lemma splitComma_cons x rest :
  commaFree x = true →
  splitComma (x +:+ "," +:+ rest) = x :: splitComma rest.
Proof.
  induction x as [|a x IH]; simpl; [done|].
  intros [Ha Hx]%andb_true_iff. apply negb_true_iff in Ha.
  by rewrite Ha, IH.
Qed.

Lemma splitComma_commaJoin xs :
  xs ≠ [] → Forall (λ x, commaFree x = true) xs →
  splitComma (commaJoin xs) = xs.
Proof.
  induction xs as [|x xs IH]; [done|]. intros _ Hall.
  inversion Hall as [|? ? Hx Hxs]; subst.
  destruct xs as [|y xs]; [by apply splitComma_commaFree|].
  change (commaJoin (x :: y :: xs)) with (x +:+ "," +:+ commaJoin (y :: xs)).
  rewrite splitComma_cons by done. f_equal. by apply IH.
Qed.

(** X16: a list of origins written into [TRUSTED_ORIGINS] with commas
    between them is read back as the same list, when no origin is empty or
    contains a comma. *)
Theorem trustedOrigins_round_trip Number env v n config xs :
  Forall (λ x, x ≠ "" ∧ commaFree x = true) xs →
  env !! "TRUSTED_ORIGINS" = Some (commaJoin xs) →
  createConfig Number env v n = Return config →
  trustedOrigins config = xs.
Proof.
  intros Hxs Henv Hret.
  assert (Hfield : trustedOrigins config
            = filter (λ s, nonEmpty s = true) (splitComma (commaJoin xs))).
  { unfold createConfig in Hret.
    repeat case_match; try discriminate Hret.
    all: injection Hret as <-; cbn; unfold getEnvVar; by rewrite Henv. }
  rewrite Hfield. destruct xs as [|x xs]; [done|].
  rewrite splitComma_commaJoin;
    [| done | eapply Forall_impl; [exact Hxs|]; by intros ? [_ ?]].
  clear Hfield Henv. induction Hxs as [|y ys [Hy _] _ IH]; [done|].
  rewrite filter_cons_True; [by rewrite IH|].
  unfold nonEmpty. by apply negb_true_iff, String.eqb_neq.
Qed.

Lemma trustedOrigins_round_trip_witness :
  ∃ config,
    createConfig Number_decimal SampleEnv.twoOrigins
      "1.0.0" "server" = Return config ∧
    trustedOrigins config = ["http://localhost:3000"; "https://myapp.com"].
Proof.
  eexists. split; [vm_compute; reflexivity|].
  apply (trustedOrigins_round_trip Number_decimal SampleEnv.twoOrigins
           "1.0.0" "server" _ ["http://localhost:3000"; "https://myapp.com"]).
  - repeat constructor; discriminate.
  - reflexivity.
  - reflexivity.
Defined.

End ConfigChecks.

(** * Further properties of the hooks *)

Section HookFacts.
Import JsString AuditLog RateLimiter Middleware RequestSequence Observations
  SampleWorld.

Implicit Types (config : SecurityConfig) (request : FastifyRequest) (w : World).

Lemma serve_rateLimit config request ts : ∀ w,
  enableRateLimit config = true →
  (serve (rateLimitMiddleware config) request ts w).1
  = (λ b : bool, if b then reply_init else tooManyRequests)
      <$> (calls (getClientIP request) (maxRequestsPerMinute config) 60000 ts
             (rateLimitMap w)).1.
Proof.
  induction ts as [|t ts IH]; intros w Hon; [done|].
  cbn [serve calls].
  assert (Hstep :
    reply (rateLimitMiddleware config request (arrive t w))
    = (if (checkRateLimit t (getClientIP request)
             (maxRequestsPerMinute config) 60000 (rateLimitMap w)).1
       then reply_init else tooManyRequests) ∧
    rateLimitMap (rateLimitMiddleware config request (arrive t w))
    = (checkRateLimit t (getClientIP request)
         (maxRequestsPerMinute config) 60000 (rateLimitMap w)).2).
  { unfold rateLimitMiddleware. rewrite Hon.
    cbn [negb arrive nowMs rateLimitMap].
    destruct (checkRateLimit _ _ _ _ _) as [[] m']; split; reflexivity. }
  destruct Hstep as [Hreply Hmap].
  specialize (IH (rateLimitMiddleware config request (arrive t w)) Hon).
  rewrite Hmap in IH.
  destruct (checkRateLimit t _ _ _ _) as [b m1].
  destruct (serve _ request ts _) as [replies w2].
  cbn [fst snd] in *. subst replies. rewrite Hreply.
  by destruct (calls _ _ _ ts m1) as [bs m2].
Qed.

(** X17: with rate limiting on and a limit [N ≥ 1], [N + 1] requests of
    one client within 60 seconds, the first of them opening the window,
    get [N] untouched replies and then one rejection with status 429 and
    [retryAfter: 60]. *)
Theorem rateLimitMiddleware_sequence config request w t0 ts :
  enableRateLimit config = true →
  1 ≤ maxRequestsPerMinute config →
  no_live_entry (rateLimitMap w) (getClientIP request) t0 →
  length ts = Z.to_nat (maxRequestsPerMinute config) →
  Forall (λ t, t ≤ t0 + 60000) ts →
  (serve (rateLimitMiddleware config) request (t0 :: ts) w).1
  = replicate (Z.to_nat (maxRequestsPerMinute config)) reply_init
    ++ [tooManyRequests].
Proof.
  intros Hon HN Hfresh Hlen Hts.
  rewrite serve_rateLimit by done. cbn [calls].
  rewrite checkRateLimit_fresh by done.
  pose proof (calls_in_window (getClientIP request)
                (maxRequestsPerMinute config) 60000 ts
                (<[getClientIP request := mkEntry 1 (t0 + 60000)]> (rateLimitMap w))
                1 (t0 + 60000) (lookup_insert_eq _ _ _) Hts) as Hrest.
  destruct (calls _ _ _ ts _) as [bs m2]. cbn [fst] in *. rewrite Hrest.
  rewrite Hlen.
  replace (Z.to_nat (maxRequestsPerMinute config)
           `min` Z.to_nat (maxRequestsPerMinute config - 1))%nat
    with (Z.to_nat (maxRequestsPerMinute config - 1)) by lia.
  replace (Z.to_nat (maxRequestsPerMinute config)
           - Z.to_nat (maxRequestsPerMinute config - 1))%nat with 1%nat by lia.
  rewrite fmap_cons, fmap_app, !fmap_replicate.
  replace (Z.to_nat (maxRequestsPerMinute config))
    with (S (Z.to_nat (maxRequestsPerMinute config - 1))) by lia.
  done.
Qed.

Lemma rateLimitMiddleware_sequence_witness :
  (serve (rateLimitMiddleware twoPerMinute) (get "/mcp" []) [0; 100; 200] epoch).1
  = [reply_init; reply_init; tooManyRequests].
Proof.
  apply (rateLimitMiddleware_sequence twoPerMinute (get "/mcp" []) epoch
           0 [100; 200]).
  - reflexivity.
  - simpl. lia.
  - exact I.
  - reflexivity.
  - repeat constructor; lia.
Defined.

(** X18: the client identifier is the first element of
    [X-Forwarded-For], trimmed, when that header is present (an empty header
    gives the empty identifier); otherwise [X-Real-IP]; otherwise the
    address of the connection, or [unknown] when there is none. *)
Theorem getClientIP_precedence request :
  (∀ first rest,
     headers request !! "x-forwarded-for" = Some (first +:+ "," +:+ rest) →
     commaFree first = true → getClientIP request = trim first) ∧
  (∀ only,
     headers request !! "x-forwarded-for" = Some only →
     commaFree only = true → getClientIP request = trim only) ∧
  (headers request !! "x-forwarded-for" = None →
     ∀ realIp, headers request !! "x-real-ip" = Some realIp →
               getClientIP request = realIp) ∧
  (headers request !! "x-forwarded-for" = None →
   headers request !! "x-real-ip" = None →
   getClientIP request = default "unknown" (ip request)).
Proof.
  unfold getClientIP. repeat split.
  - intros first rest -> Hfree. by rewrite splitComma_cons.
  - intros only -> Hfree. by rewrite splitComma_commaFree.
  - by intros -> realIp ->.
  - by intros -> ->.
Qed.

Lemma getClientIP_precedence_witness :
  getClientIP (get "/mcp" [("x-forwarded-for", " 198.51.100.4 , 10.0.0.1");
                           ("x-real-ip", "192.0.2.1")])
  = "198.51.100.4" ∧
  getClientIP (get "/mcp" []) = "203.0.113.7".
Proof.
  split.
  - exact (proj1 (getClientIP_precedence
                    (get "/mcp" [("x-forwarded-for", " 198.51.100.4 , 10.0.0.1");
                                 ("x-real-ip", "192.0.2.1")]))
             " 198.51.100.4 " " 10.0.0.1" eq_refl eq_refl).
  - exact (proj2 (proj2 (proj2 (getClientIP_precedence (get "/mcp" []))))
             eq_refl eq_refl).
Defined.

(** X19: the rate limiter counts per the name the request gives itself: a
    request whose [X-Forwarded-For] names a bucket with no live entry is let
    through with its reply and the audit log untouched, whatever the limit
    is and however many requests the connection's own address has made. *)
Theorem rateLimit_keyed_by_forwarded_header config request w forwarded :
  headers request !! "x-forwarded-for" = Some forwarded →
  commaFree forwarded = true →
  no_live_entry (rateLimitMap w) (trim forwarded) (nowMs w) →
  reply (rateLimitMiddleware config request w) = reply w ∧
  audit (rateLimitMiddleware config request w) = audit w.
Proof.
  intros Hfwd Hfree Hfresh. unfold rateLimitMiddleware.
  destruct (enableRateLimit config); [|done]. cbn [negb].
  assert (getClientIP request = trim forwarded) as ->.
  { unfold getClientIP. by rewrite Hfwd, splitComma_commaFree. }
  by rewrite checkRateLimit_fresh.
Qed.

Lemma rateLimit_keyed_by_forwarded_header_witness :
  reply (rateLimitMiddleware twoPerMinute
           (get "/mcp" [("x-forwarded-for", "198.51.100.4")]) exhausted)
  = reply exhausted.
Proof.
  refine (proj1 (rateLimit_keyed_by_forwarded_header twoPerMinute
                   (get "/mcp" [("x-forwarded-for", "198.51.100.4")])
                   exhausted "198.51.100.4" _ _ _)).
  - reflexivity.
  - reflexivity.
  - exact I.
Defined.

(** X20: the origin guard rejects a request exactly when its path is
    under [/mcp], the trusted list is not empty, and the request carries a
    non-empty [Origin] that is not in the list. *)
Theorem corsMiddleware_rejects_iff config request w :
  sent (reply w) = false →
  sent (reply (corsMiddleware config request w)) = true
  ↔ startsWith (url request) "/mcp" = true ∧
    trustedOrigins config ≠ [] ∧
    ∃ origin, headers request !! "origin" = Some origin ∧ origin ≠ "" ∧
              origin ∉ trustedOrigins config.
Proof.
  intros Hunsent. unfold corsMiddleware.
  destruct (startsWith (url request) "/mcp"); cbn [negb];
    [|rewrite Hunsent; split; [done|by intros [? _]]].
  destruct (headers request !! "origin") as [origin|] eqn:Horigin; cbn [truthy].
  - destruct (String.eqb_spec origin "") as [->|Hne]; cbn [negb andb].
    + cbn. rewrite Hunsent. split; [done|].
      intros (_ & _ & o & Ho & Hne & _). by injection Ho as <-.
    + destruct (trustedOrigins config) as [|t ts] eqn:Htrust;
        cbn [length Nat.ltb Nat.leb].
      * cbn. rewrite Hunsent. split; [done|]. by intros (_ & ? & _).
      * cbn [default]. case_bool_decide as Hin; cbn.
        -- rewrite Hunsent. split; [done|].
           intros (_ & _ & o & Ho & _ & Hnot). by injection Ho as <-.
        -- split; [|done]. intros _. split; [done|]. split; [done|].
           by exists origin.
  - cbn. rewrite Hunsent. split; [done|].
    intros (_ & _ & o & Ho & _). discriminate Ho.
Qed.

Lemma corsMiddleware_rejects_iff_witness :
  sent (reply (corsMiddleware originConfig
                 (get "/mcp/stream" [("origin", "https://evil.com")]) epoch))
  = true.
Proof.
  apply (proj2 (corsMiddleware_rejects_iff originConfig
                  (get "/mcp/stream" [("origin", "https://evil.com")]) epoch
                  eq_refl)).
  split; [reflexivity|]. split; [discriminate|].
  exists "https://evil.com". split; [reflexivity|]. split; [discriminate|].
  intros Hin. apply list_elem_of_singleton in Hin. discriminate Hin.
Defined.

(** X21: the origin guard never grants an origin that is not listed: if
    the reply carries [Access-Control-Allow-Origin] after the guard, the
    value was already there, or it is the request's [Origin] and a member of
    the trusted list. *)
Theorem corsMiddleware_never_echoes_unlisted config request w origin :
  replyHeaders (reply (corsMiddleware config request w))
    !! "Access-Control-Allow-Origin" = Some origin →
  replyHeaders (reply w) !! "Access-Control-Allow-Origin" = Some origin ∨
  (headers request !! "origin" = Some origin ∧
   origin ∈ trustedOrigins config).
Proof.
  unfold corsMiddleware.
  destruct (startsWith (url request) "/mcp"); cbn [negb]; [|by left].
  destruct (headers request !! "origin") as [o|] eqn:Horigin; cbn [truthy].
  - destruct (negb (String.eqb o "") && (0 <? length (trustedOrigins config))%nat).
    + cbn [default]. case_bool_decide as Hin; cbn.
      * do 3 (rewrite lookup_insert_ne by done). rewrite lookup_insert_eq.
        intros [= <-]. by right.
      * by left.
    + cbn. do 3 (rewrite lookup_insert_ne by done). by left.
  - cbn. do 3 (rewrite lookup_insert_ne by done). by left.
Qed.

Lemma corsMiddleware_never_echoes_unlisted_witness :
  replyHeaders (reply epoch) !! "Access-Control-Allow-Origin"
  = Some "https://a.com" ∨
  (headers (get "/mcp" [("origin", "https://a.com")]) !! "origin"
   = Some "https://a.com" ∧
   "https://a.com" ∈ trustedOrigins originConfig).
Proof.
  apply (corsMiddleware_never_echoes_unlisted originConfig
           (get "/mcp" [("origin", "https://a.com")]) epoch "https://a.com").
  reflexivity.
Defined.

(** X22: with authentication on, a request under [/mcp] passes the
    authentication guard exactly when a key is configured and the
    [Authorization] header is [Bearer ] followed by exactly that key;
    with no key configured nothing passes. *)
Theorem authMiddleware_admits_iff config request w :
  enableAuth config = true →
  startsWith (url request) "/mcp" = true →
  sent (reply w) = false →
  sent (reply (authMiddleware config request w)) = false
  ↔ ∃ key, apiKey config = Some key ∧
           headers request !! "authorization" = Some ("Bearer " +:+ key).
Proof.
  intros Hon Hurl Hunsent.
  destruct (startsWith
              (default "" (headers request !! "authorization")) "Bearer ")
    eqn:Hpre.
  - apply startsWith_spec in Hpre as [token Htoken].
    destruct (headers request !! "authorization") as [h|] eqn:Hh;
      [|discriminate Htoken].
    simpl in Htoken. subst h.
    rewrite (authMiddleware_token config request w token) by done.
    case_bool_decide as Hkey.
    + rewrite Hunsent. split; [|done]. intros _. by exists token.
    + cbn. split; [done|]. intros (key & Hk & Hhdr).
      assert (token = key) as -> by (by injection Hhdr).
      by rewrite Hk in Hkey.
  - destruct (authMiddleware_no_bearer config request w Hon Hurl Hpre)
      as [Hsent _].
    rewrite Hsent. split; [done|]. intros (key & _ & Hhdr).
    rewrite Hhdr in Hpre. discriminate Hpre.
Qed.

Lemma authMiddleware_admits_iff_witness :
  sent (reply (authMiddleware authConfig
                 (get "/mcp" [("authorization", "Bearer secret123")]) epoch))
  = false.
Proof.
  apply (proj2 (authMiddleware_admits_iff authConfig
                  (get "/mcp" [("authorization", "Bearer secret123")]) epoch
                  eq_refl eq_refl eq_refl)).
  exists "secret123". split; reflexivity.
Defined.




End HookFacts.

(** * Properties of the tool-call handler *)

Section ToolCalls.
Import JsString Regex InputValidator AuditLog RateLimiter ToolServer.

(** X24: a call of [hello_world] fails in one way only: it throws when
    the per-tool rate limit denies it. Whenever the limit admits it the
    handler returns a result, and that result is the error text with
    [isError] exactly when an argument was given and [sanitizeInput] refused
    it: a bad argument never escapes as an exception. *)
Theorem callTool_hello_world_contained now iso arg st :
  let allowed :=
    (checkRateLimit now "tool:hello_world" 50 60000 (limits st)).1 in
  let outcome := (callTool now iso "hello_world" arg st).1 in
  (allowed = false → outcome = Throw rateLimitMessage) ∧
  (allowed = true →
     ∃ r, outcome = Return r ∧
          (isError r = true
           ↔ truthyValue arg = true ∧
             throws (sanitizeInputValue arg 50 (patterns st)).1) ∧
          (isError r = true → text r = invalidInputText)).
Proof.
  cbn zeta. unfold callTool.
  change ("tool:" +:+ "hello_world") with "tool:hello_world".
  destruct (checkRateLimit now "tool:hello_world" 50 60000 (limits st))
    as [[] limits']; cbn [fst negb]; (split; [done|]); [|done].
  intros _. cbn [String.eqb Ascii.eqb Bool.eqb].
  destruct (truthyValue arg) eqn:Htruthy.
  - destruct (sanitizeInputValue arg 50 (patterns st)) as [[message|safe] ps'];
      cbn [fst].
    + eexists. split; [done|]. cbn. split; [|done].
      split; [intros _; split; [done|by eexists]|done].
    + eexists. split; [done|]. cbn. split; [|done].
      split; [done|]. intros [_ [m Hm]]. discriminate Hm.
  - eexists. split; [done|]. cbn. split; [|done].
    split; [done|]. by intros [? _].
Qed.

Lemma callTool_hello_world_contained_witness :
  ∃ r, (callTool 0 "1970-01-01T00:00:00.000Z" "hello_world"
          (Str "rm -rf /") server_init).1 = Return r ∧
       (isError r = true
        ↔ truthyValue (Str "rm -rf /") = true ∧
          throws (sanitizeInputValue (Str "rm -rf /") 50
                    (patterns server_init)).1) ∧
       (isError r = true → text r = invalidInputText).
Proof.
  apply (callTool_hello_world_contained 0 "1970-01-01T00:00:00.000Z"
           (Str "rm -rf /") server_init).
  reflexivity.
Defined.

(** X25: the greeting carries only sanitized text: a successful
    [hello_world] result is the default greeting, or [Hello, ] followed by a
    non-empty name of at most 50 characters, all of them in [[\w\s.-]], with
    no white space at either end, followed by the fixed welcome. *)
Theorem callTool_greeting_clean now iso arg st r :
  (callTool now iso "hello_world" arg st).1 = Return r →
  isError r = false →
  text r = defaultGreeting ∨
  ∃ safe, text r = "Hello, " +:+ safe +:+ "! Welcome to your MCP server." ∧
          safe ≠ "" ∧ (String.length safe ≤ 50)%nat ∧
          allChars keptChar safe = true ∧ trim safe = safe.
Proof.
  unfold callTool.
  destruct (checkRateLimit now _ 50 60000 (limits st)) as [[] limits'];
    cbn [fst negb].
  2: discriminate.
  cbn [String.eqb Ascii.eqb Bool.eqb].
  destruct (truthyValue arg) eqn:Htruthy.
  - destruct arg as [|s|b]; cbn [sanitizeInputValue].
    + discriminate Htruthy.
    + destruct (sanitizeInput s 50 (patterns st)) as [[message|safe] ps']
        eqn:Hsan; cbn [fst].
      * intros [= <-]. discriminate.
      * intros [= <-] _. cbn [text].
        destruct (String.eqb_spec safe ""); cbn [negb]; [by left|right].
        exists safe. split; [done|]. split; [done|].
        destruct (sanitizeInput_returned s 50 (patterns st) safe ps' Hsan)
          as (Hmax & Hlen & Hkept & Htrim).
        split; [lia|done].
    + cbn [fst]. intros [= <-]. discriminate.
  - cbn [fst]. intros [= <-] _. by left.
Qed.

Lemma callTool_greeting_clean_witness :
  "Hello, Ada! Welcome to your MCP server." = defaultGreeting ∨
  ∃ safe, "Hello, Ada! Welcome to your MCP server."
          = "Hello, " +:+ safe +:+ "! Welcome to your MCP server." ∧
          safe ≠ "" ∧ (String.length safe ≤ 50)%nat ∧
          allChars keptChar safe = true ∧ trim safe = safe.
Proof.
  apply (callTool_greeting_clean 0 "1970-01-01T00:00:00.000Z"
           (Str "  Ada!  ") server_init
           (mkToolResult "Hello, Ada! Welcome to your MCP server." false));
    reflexivity.
Defined.

Lemma callTool_limits now iso name arg st :
  limits (callTool now iso name arg st).2
  = (checkRateLimit now ("tool:" +:+ name) 50 60000 (limits st)).2 ∧
  ((callTool now iso name arg st).1 = Throw rateLimitMessage
   ↔ (checkRateLimit now ("tool:" +:+ name) 50 60000 (limits st)).1 = false).
Proof.
  unfold callTool.
  destruct (checkRateLimit now _ 50 60000 (limits st)) as [[] limits'];
    cbn [fst snd negb].
  2: done.
  destruct (String.eqb name "hello_world").
  - destruct (if truthyValue arg then _ else _) as [[message|safe] ps'];
      cbn; split; done.
  - cbn. split; [done|]. split; [|done]. intros Heq. discriminate Heq.
Qed.

Lemma callToolAt_rate name arg times : ∀ st,
  Forall2 (λ r (b : bool), r = Throw rateLimitMessage ↔ b = false)
    (callToolAt name arg times st).1
    (calls ("tool:" +:+ name) 50 60000 times.*1 (limits st)).1.
Proof.
  induction times as [|[now iso] times IH]; intros st; [constructor|].
  cbn [callToolAt calls fmap list_fmap fst].
  destruct (callTool_limits now iso name arg st) as [Hlim Hiff].
  specialize (IH (callTool now iso name arg st).2). rewrite Hlim in IH.
  destruct (callTool now iso name arg st) as [r st1].
  destruct (checkRateLimit now _ 50 60000 (limits st)) as [b m1].
  cbn [fst snd] in *. subst m1.
  destruct (callToolAt name arg times st1) as [rs st2].
  destruct (calls _ 50 60000 times.*1 (limits st1)) as [bs m2].
  cbn [fst snd] in *. by constructor.
Qed.

(** X26: every tool name has one quota of 50 calls per minute, shared by
    all callers and spent by every call, whatever the argument and whether
    or not the tool exists: of 51 calls of one name inside a window, the
    first 50 do not fail on the rate limit and the 51st throws the
    rate-limit error. *)
Theorem callTool_quota name arg st t0 iso0 times :
  no_live_entry (limits st) ("tool:" +:+ name) t0 →
  length times = 50%nat →
  Forall (λ t, t.1 ≤ t0 + 60000) times →
  ∃ rs, (callToolAt name arg ((t0, iso0) :: times) st).1
        = rs ++ [Throw rateLimitMessage] ∧
        length rs = 50%nat ∧
        Forall (λ r, r ≠ Throw rateLimitMessage) rs.
Proof.
  intros Hfresh Hlen Htimes.
  pose proof (callToolAt_rate name arg ((t0, iso0) :: times) st) as Hrate.
  cbn [fmap list_fmap fst calls] in Hrate.
  rewrite checkRateLimit_fresh in Hrate by done.
  pose proof (calls_in_window ("tool:" +:+ name) 50 60000 times.*1
                (<["tool:" +:+ name := mkEntry 1 (t0 + 60000)]> (limits st))
                1 (t0 + 60000) (lookup_insert_eq _ _ _)) as Hrest.
  rewrite Forall_fmap in Hrest. specialize (Hrest Htimes).
  destruct (calls _ 50 60000 times.*1 _) as [bs m2]. cbn [fst] in *.
  rewrite length_fmap, Hlen in Hrest. subst bs.
  change (true :: replicate (50 `min` Z.to_nat (50 - 1)) true
            ++ replicate (50 - 50 `min` Z.to_nat (50 - 1)) false)
    with (replicate 50 true ++ [false]) in Hrate.
  apply Forall2_app_inv_r in Hrate as (rs & last & Hrs & Hlast & ->).
  apply Forall2_cons_inv_r in Hlast as (r & nil' & Hr & Hnil & ->).
  apply Forall2_nil_inv_r in Hnil as ->.
  exists rs. split; [by rewrite (proj2 Hr)|]. split.
  - apply Forall2_length in Hrs. by rewrite Hrs, length_replicate.
  - clear -Hrs. remember (replicate 50 true) as bs eqn:Hbs.
    assert (Hall : Forall (λ b, b = true) bs)
      by (subst bs; apply Forall_replicate; done).
    clear Hbs. induction Hrs as [|r b rs bs Hrb _ IH]; [constructor|].
    inversion Hall as [|? ? Hb Hbs']; subst.
    constructor; [|by apply IH]. intros Hthrow. by apply Hrb in Hthrow.
Qed.

Lemma callTool_quota_witness :
  ∃ rs, (callToolAt "no_such_tool" Undefined
           ((0, "1970-01-01T00:00:00.000Z")
              :: replicate 50 (1000, "1970-01-01T00:00:01.000Z"))
           server_init).1
        = rs ++ [Throw rateLimitMessage] ∧
        length rs = 50%nat ∧
        Forall (λ r, r ≠ Throw rateLimitMessage) rs.
Proof.
  apply (callTool_quota "no_such_tool" Undefined server_init 0).
  - exact I.
  - reflexivity.
  - apply Forall_replicate. simpl. lia.
Defined.

End ToolCalls.
